(** * conllu: Token, MultiwordToken and Sentence (lib/Token.js, lib/Sentence.js)

    A shallow embedding of the CoNLL-U sentence model: the ten-field
    [Token], the [MultiwordToken] group, and the [Sentence] with its
    [serial] getter and setter and its [expand] / [collapse] edits.

    JavaScript strings are sequences of UTF-16 code units; JavaScript
    numbers are the integers and NaN (the arithmetic of the library is
    [+ 1] and [- (length - 1)] on token identifiers, exact on integers
    below 2^53); a JavaScript exception is an explicit [Throw]
    completion; an object used as a map is the list of its own
    properties in creation order.  Mutation is state passing: a setter
    or a method takes the object it is called on and returns it
    changed. *)

From Stdlib Require Import Decimal DecimalN String Ascii.
From Stdlib Require Import ZArith NArith Lia Bool List Permutation.
Import ListNotations.

Local Open Scope Z_scope.
Local Open Scope list_scope.

(* ================================================================== *)
(** ** JavaScript strings *)

Module JS.

(** A code unit; a string is the list of its code units. *)
Definition char : Type := N.
Definition jsstring : Type := list char.

(** A string literal, each character taken as the code unit of its code. *)
Definition lit (s : string) : jsstring :=
  map N_of_ascii (list_ascii_of_string s).

Definition TAB : char := 9%N.
Definition LF : char := 10%N.
Definition CR : char := 13%N.
Definition DASH : char := 45%N.
Definition HASH : char := 35%N.
Definition UNDERSCORE : char := 95%N.

Definition str_eq_dec : forall a b : jsstring, {a = b} + {a <> b} :=
  list_eq_dec N.eq_dec.

Definition str_eqb (a b : jsstring) : bool :=
  if str_eq_dec a b then true else false.

(** [s.split(sep)] for a one-character separator: never empty. *)
Fixpoint split (sep : char) (s : jsstring) : list jsstring :=
  match s with
  | [] => [[]]
  | c :: s' =>
      if N.eqb c sep then [] :: split sep s'
      else match split sep s' with
           | [] => [[c]]
           | f :: r => (c :: f) :: r
           end
  end.

(** [a.join(sep)] on an array of strings. *)
Fixpoint join (sep : jsstring) (a : list jsstring) : jsstring :=
  match a with
  | [] => []
  | [x] => x
  | x :: r => x ++ sep ++ join sep r
  end.

(** [s.startsWith(p)]. *)
Fixpoint startsWith (p s : jsstring) : bool :=
  match p, s with
  | [], _ => true
  | _ :: _, [] => false
  | a :: p', b :: s' => N.eqb a b && startsWith p' s'
  end.

(** [s.includes(c)] and [s.indexOf(c)] for a one-character needle;
    [indexOf] is -1 when the character is absent. *)
Definition includes (c : char) (s : jsstring) : bool :=
  existsb (N.eqb c) s.

Fixpoint indexOf (c : char) (s : jsstring) : Z :=
  match s with
  | [] => -1
  | d :: s' =>
      if N.eqb d c then 0
      else let i := indexOf c s' in if i <? 0 then -1 else i + 1
  end.

(** Relative offsets of [slice]: a negative offset counts from the end,
    and the result is clamped to the string. *)
Definition clamp (len i : Z) : Z :=
  if i <? 0 then Z.max (len + i) 0 else Z.min i len.

(** [s.slice(from, to)] and [s.slice(from)]. *)
Definition slice2 (from to : Z) (s : jsstring) : jsstring :=
  let len := Z.of_nat (length s) in
  let a := clamp len from in
  let b := clamp len to in
  firstn (Z.to_nat (b - a)) (skipn (Z.to_nat a) s).

Definition slice1 (from : Z) (s : jsstring) : jsstring :=
  let len := Z.of_nat (length s) in
  skipn (Z.to_nat (clamp len from)) s.

(** [s.substring(0, s.length - 1)]. *)
Definition drop_last (s : jsstring) : jsstring :=
  firstn (length s - 1) s.

(* ------------------------------------------------------------------ *)
(** ** Numbers

    The identifiers the library computes with are integers; [NaN] is what
    arithmetic on a non-numeric identifier gives.  Numeric strings
    that do not denote an integer in plain decimal notation (a fraction,
    an exponent, a radix prefix, [Infinity]) are outside this model and
    read as [NaN], and the integers are not rounded where a double is
    from 2^53 on.  The statements below that depend on [Number] of a
    string restrict the string to the decimal digits of an integer below
    2^53 or to a text that begins like no number, and those that depend
    on [+ 1] and [- d] restrict the identifiers to natural numbers below
    2^53, where the integers compute what the code computes. *)

Inductive number : Type :=
| Int (z : Z)
| NaN.

Definition number_eq_dec : forall a b : number, {a = b} + {a <> b}.
Proof. decide equality. apply Z.eq_dec. Defined.

(** [a + b], [a - b] and [a <= b] on numbers. *)
Definition add (a b : number) : number :=
  match a, b with
  | Int x, Int y => Int (x + y)
  | _, _ => NaN
  end.

Definition sub (a b : number) : number :=
  match a, b with
  | Int x, Int y => Int (x - y)
  | _, _ => NaN
  end.

(** [a === b] on numbers: NaN is not equal to itself. *)
Definition number_eqb (a b : number) : bool :=
  match a, b with
  | Int x, Int y => Z.eqb x y
  | _, _ => false
  end.

(** ToBoolean on a number. *)
Definition truthy (a : number) : bool :=
  match a with
  | Int z => negb (Z.eqb z 0)
  | NaN => false
  end.

(** Decimal digits. *)
Definition digit_char (d : N) : char := (48 + d)%N.

Fixpoint uint_chars (d : uint) : jsstring :=
  match d with
  | Nil => []
  | D0 d => digit_char 0 :: uint_chars d
  | D1 d => digit_char 1 :: uint_chars d
  | D2 d => digit_char 2 :: uint_chars d
  | D3 d => digit_char 3 :: uint_chars d
  | D4 d => digit_char 4 :: uint_chars d
  | D5 d => digit_char 5 :: uint_chars d
  | D6 d => digit_char 6 :: uint_chars d
  | D7 d => digit_char 7 :: uint_chars d
  | D8 d => digit_char 8 :: uint_chars d
  | D9 d => digit_char 9 :: uint_chars d
  end.

Fixpoint chars_uint (s : jsstring) : option uint :=
  match s with
  | [] => Some Nil
  | c :: s' =>
      match chars_uint s' with
      | None => None
      | Some d =>
          match c with
          | 48%N => Some (D0 d) | 49%N => Some (D1 d) | 50%N => Some (D2 d)
          | 51%N => Some (D3 d) | 52%N => Some (D4 d) | 53%N => Some (D5 d)
          | 54%N => Some (D6 d) | 55%N => Some (D7 d) | 56%N => Some (D8 d)
          | 57%N => Some (D9 d)
          | _ => None
          end
      end
  end.

(** [String(n)] for a number. *)
Definition NumberToString (n : number) : jsstring :=
  match n with
  | NaN => lit "NaN"
  | Int z =>
      if z <? 0 then DASH :: uint_chars (N.to_uint (Z.to_N (- z)))
      else uint_chars (N.to_uint (Z.to_N z))
  end.

(** White space and line terminators, as StringToNumber trims them. *)
Definition is_whitespace (c : char) : bool :=
  existsb (N.eqb c)
    [9; 10; 11; 12; 13; 32; 160; 5760; 8192; 8193; 8194; 8195; 8196; 8197;
     8198; 8199; 8200; 8201; 8202; 8232; 8233; 8239; 8287; 12288; 65279]%N.

Fixpoint trim_left (s : jsstring) : jsstring :=
  match s with
  | c :: s' => if is_whitespace c then trim_left s' else s
  | [] => []
  end.

Definition trim (s : jsstring) : jsstring :=
  rev (trim_left (rev (trim_left s))).

Definition unsigned_decimal (s : jsstring) : option Z :=
  match s with
  | [] => None
  | _ => match chars_uint s with
         | Some d => Some (Z.of_N (N.of_uint d))
         | None => None
         end
  end.

(** [Number(s)] for a string: the empty or blank string is 0, a decimal
    integer with an optional sign is its value. *)
Definition StringToNumber (s : jsstring) : number :=
  match trim s with
  | [] => Int 0
  | c :: r =>
      if N.eqb c 45 then
        match unsigned_decimal r with Some z => Int (- z) | None => NaN end
      else if N.eqb c 43 then
        match unsigned_decimal r with Some z => Int z | None => NaN end
      else
        match unsigned_decimal (c :: r) with Some z => Int z | None => NaN end
  end.

(* ------------------------------------------------------------------ *)
(** ** Values

    What a token field or an argument of [expand] / [collapse] holds. *)

Inductive value : Type :=
| Undefined
| Num (n : number)
| Str (s : jsstring).

Definition value_eq_dec : forall a b : value, {a = b} + {a <> b}.
Proof.
  decide equality; [apply number_eq_dec | apply str_eq_dec].
Defined.

(** [a === b]. *)
Definition strict_equal (a b : value) : bool :=
  match a, b with
  | Undefined, Undefined => true
  | Num x, Num y => number_eqb x y
  | Str x, Str y => str_eqb x y
  | _, _ => false
  end.

(** [Number(v)] and [String(v)]. *)
Definition ToNumber (v : value) : number :=
  match v with
  | Undefined => NaN
  | Num n => n
  | Str s => StringToNumber s
  end.

Definition ToString (v : value) : jsstring :=
  match v with
  | Undefined => lit "undefined"
  | Num n => NumberToString n
  | Str s => s
  end.

(** [a[i]] on an array of strings: [undefined] out of range. *)
Definition array_get (a : list jsstring) (i : nat) : value :=
  match nth_error a i with
  | Some s => Str s
  | None => Undefined
  end.

(** [a.indexOf(n) === -1] on an array of numbers. *)
Definition not_in_numbers (n : number) (a : list number) : bool :=
  negb (existsb (number_eqb n) a).

(* ------------------------------------------------------------------ *)
(** ** Completions *)

Inductive error : Type :=
| TypeError
| MalformedLineError
| MalformedGroupError
| NotFoundError.

Inductive completion (A : Type) : Type :=
| Normal (a : A)
| Throw (e : error).

Arguments Normal {A} a.
Arguments Throw {A} e.

Definition bind {A B} (c : completion A) (k : A -> completion B)
  : completion B :=
  match c with
  | Normal a => k a
  | Throw e => Throw e
  end.

(* ------------------------------------------------------------------ *)
(** ** Objects used as string-keyed maps

    The own properties in creation order.  Assigning to an existing key
    keeps its place; enumeration lists the array-index keys first, in
    ascending numeric order, and then the other keys in creation order. *)

Definition object : Type := list (jsstring * jsstring).

Fixpoint put (k v : jsstring) (o : object) : object :=
  match o with
  | [] => [(k, v)]
  | (k', v') :: o' =>
      if str_eqb k' k then (k', v) :: o' else (k', v') :: put k v o'
  end.

(** [o[k] = v] on an object made by [{}]: the key [__proto__] is the
    accessor inherited from the prototype, and assigning a string to it
    is ignored; any other key becomes or stays an own property. *)
Definition obj_set (k v : jsstring) (o : object) : object :=
  if str_eqb k (lit "__proto__") then o else put k v o.

Fixpoint obj_get (k : jsstring) (o : object) : option jsstring :=
  match o with
  | [] => None
  | (k', v') :: o' => if str_eqb k' k then Some v' else obj_get k o'
  end.

(** The array index a key denotes, when it is the canonical decimal form
    of an integer below 2^32 - 1. *)
Definition array_index (k : jsstring) : option N :=
  match chars_uint k with
  | Some d =>
      let n := N.of_uint d in
      if str_eqb (uint_chars (N.to_uint n)) k && (n <? 4294967295)%N
      then Some n else None
  | None => None
  end.

Definition is_array_index (k : jsstring) : bool :=
  match array_index k with Some _ => true | None => false end.

Definition index_of_key (k : jsstring) : N :=
  match array_index k with Some n => n | None => 0%N end.

Fixpoint insert_by_index (e : jsstring * jsstring) (l : object) : object :=
  match l with
  | [] => [e]
  | e' :: l' =>
      if (index_of_key (fst e) <=? index_of_key (fst e'))%N
      then e :: l else e' :: insert_by_index e l'
  end.

Definition sort_by_index (l : object) : object :=
  fold_right insert_by_index [] l.

(** [Object.entries(o)]. *)
Definition entries (o : object) : list (jsstring * jsstring) :=
  sort_by_index (filter (fun e => is_array_index (fst e)) o)
  ++ filter (fun e => negb (is_array_index (fst e))) o.

End JS.

Import JS.

Notation "x <- c ;; k" := (bind c (fun x => k))
  (at level 61, c at next level, right associativity).

(* ================================================================== *)
(** ** Token (lib/Token.js) *)

Module Token.

Record t : Type := mk {
  id : value;
  form : value;
  lemma : value;
  upostag : value;
  xpostag : value;
  feats : value;
  head : value;
  deprel : value;
  deps : value;
  misc : value
}.

(** [new Token()]: the fields are those of the prototype. *)
Definition new : t :=
  mk Undefined (Str []) Undefined Undefined Undefined Undefined Undefined
     Undefined Undefined Undefined.

Definition set_id (v : value) (x : t) : t :=
  mk v (form x) (lemma x) (upostag x) (xpostag x) (feats x) (head x)
     (deprel x) (deps x) (misc x).

Definition set_form (v : value) (x : t) : t :=
  mk (id x) v (lemma x) (upostag x) (xpostag x) (feats x) (head x)
     (deprel x) (deps x) (misc x).

(** [!(v === undefined) && !(v === "")]. *)
Definition is_set (v : value) : bool :=
  negb (strict_equal v Undefined) && negb (strict_equal v (Str [])).

Definition placeholder : jsstring := [UNDERSCORE].

(** The [serial] getter. *)
Definition get_serial (this : t) : jsstring :=
  let id_output :=
    if is_set (id this) then ToString (id this) else placeholder in
  let form_output :=
    if is_set (id this) then ToString (form this) else placeholder in
  let lemma_output :=
    if is_set (lemma this) then ToString (lemma this) else placeholder in
  let upostag_output :=
    if is_set (upostag this) then ToString (upostag this) else placeholder in
  let xpostag_output :=
    if is_set (xpostag this) then ToString (xpostag this) else placeholder in
  let feats_output :=
    if is_set (feats this) then ToString (feats this) else placeholder in
  let head_output :=
    if is_set (head this) then ToString (head this) else placeholder in
  let deprel_output :=
    if is_set (deprel this) then ToString (deprel this) else placeholder in
  let deps_output :=
    if is_set (deps this) then ToString (deps this) else placeholder in
  let misc_output :=
    if is_set (misc this) then ToString (misc this) else placeholder in
  id_output ++ [TAB] ++ form_output ++ [TAB] ++ lemma_output ++ [TAB]
  ++ upostag_output ++ [TAB] ++ xpostag_output ++ [TAB] ++ feats_output
  ++ [TAB] ++ head_output ++ [TAB] ++ deprel_output ++ [TAB]
  ++ deps_output ++ [TAB] ++ misc_output.

(** The [serial] setter: every field is assigned, so the token it is
    called on does not matter. *)
Definition set_serial (arg : jsstring) (this : t) : t :=
  let fields := split TAB arg in
  let f0 := match fields with f :: _ => f | [] => [] end in
  mk (if truthy (StringToNumber f0) then Num (StringToNumber f0)
      else Str f0)
     (array_get fields 1) (array_get fields 2) (array_get fields 3) (array_get fields 4)
     (array_get fields 5) (array_get fields 6) (array_get fields 7) (array_get fields 8)
     (array_get fields 9).

(** [var t = new Token(); t.serial = line], as a completion. *)
Definition parse (line : jsstring) : completion t :=
  Normal (set_serial line new).

End Token.

(* ================================================================== *)
(** ** Range identifiers (lib/Sentence.js, the setter of [serial])

    What the setter computes from the first field [first-last] of a
    range line: [dashIndex], [first] and [last], and the [span] filled
    by its [while] loop. *)

Module Range.

(** [first] and [last]: the numbers before and after the first dash. *)
Definition bounds (range : jsstring) : number * number :=
  let dashIndex := indexOf DASH range in
  (StringToNumber (slice2 0 dashIndex range),
   StringToNumber (slice1 (dashIndex + 1) range)).

(** [span]: [first], [first + 1], ... while [first <= last]. *)
Definition span (first last : number) : list number :=
  match first, last with
  | Int a, Int b =>
      map (fun k => Int (a + Z.of_nat k)) (seq 0 (Z.to_nat (b - a + 1)))
  | _, _ => []
  end.

End Range.

(* ================================================================== *)
(** ** MultiwordToken

    lib/MultiwordToken.js is not part of the sources at hand; what
    Sentence.js needs of it is taken from the specification (sections 3
    and 4.2). *)

Module MultiwordToken.

(** Modelled from the spec: the fields of a MultiwordToken, a surface
    form and the ordered child tokens; lib/MultiwordToken.js is missing. *)
Record t : Type := mk {
  form : value;
  tokens : list Token.t
}.

(** Modelled from the spec: [new MultiwordToken()], without children and
    with the form of the Token prototype. *)
Definition new : t := mk (Str []) [].

(** Modelled from the spec: the [id] getter of lib/MultiwordToken.js,
    which is missing.  The range [first-last] is read from the first and
    the last child; reading the [id] of a missing child throws. *)
Definition id (this : t) : completion value :=
  match tokens this with
  | [] => Throw TypeError
  | c :: r =>
      Normal (Str (ToString (Token.id c) ++ [DASH]
                   ++ ToString (Token.id (last r c))))
  end.

(** Modelled from the spec: the [serial] getter of lib/MultiwordToken.js,
    which is missing.  The range line (range, form, eight placeholders)
    followed by the line of each child. *)
Definition get_serial (this : t) : completion jsstring :=
  range <- id this ;;
  let form_output :=
    if Token.is_set (form this) then ToString (form this)
    else Token.placeholder in
  let range_line :=
    join [TAB]
      (ToString range :: form_output :: repeat Token.placeholder 8) in
  Normal (join [LF] (range_line :: map Token.get_serial (tokens this))).

(** Modelled from the spec: the first check of the missing setter on the
    children of a group, that their count is that of the declared span. *)
Definition count_matches (first last : number) (cs : list Token.t) : bool :=
  match first, last with
  | Int a, Int b => Z.eqb (Z.of_nat (length cs)) (b - a + 1)
  | _, _ => false
  end.

(** Modelled from the spec: the second check of the missing setter, that
    a child identifier lies in the declared span. *)
Definition in_span (first last : number) (v : value) : bool :=
  match v, first, last with
  | Num (Int z), Int a, Int b => Z.leb a z && Z.leb z b
  | _, _, _ => false
  end.

(** Modelled from the spec: the third check of the missing setter, that
    the child identifiers ascend. *)
Fixpoint ascending (ids : list value) : bool :=
  match ids with
  | Num (Int x) :: r =>
      match r with
      | Num (Int y) :: _ => Z.ltb x y && ascending r
      | [] => true
      | _ => false
      end
  | [] => true
  | _ => false
  end.

(** Modelled from the spec: the three checks of the missing setter
    together. *)
Definition children_match (first last : number) (cs : list Token.t)
  : bool :=
  count_matches first last cs
  && forallb (in_span first last) (map Token.id cs)
  && ascending (map Token.id cs).

(** Modelled from the spec: the [serial] setter of lib/MultiwordToken.js,
    which is missing.  The first line is the range line and gives the
    form; the other lines are the children, each parsed as a Token; the
    group is refused when the children do not match the declared span. *)
Definition set_serial (arg : jsstring) (this : t) : completion t :=
  match split LF arg with
  | [] => Throw MalformedGroupError
  | range_line :: child_lines =>
      let fields := split TAB range_line in
      let f0 := match fields with f :: _ => f | [] => [] end in
      let '(first, last) := Range.bounds f0 in
      let children :=
        map (fun l => Token.set_serial l Token.new) child_lines in
      if children_match first last children
      then Normal (mk (array_get fields 1) children)
      else Throw MalformedGroupError
  end.

End MultiwordToken.

(* ================================================================== *)
(** ** Sentence (lib/Sentence.js)

    The constructor also calls TokenAggregate, of lib/TokenAggregate.js,
    which is not part of the sources at hand; none of the functions below
    reads what it sets up. *)

Module Sentence.

(** An element of [tokens]: a Token, or an instance of MultiwordToken. *)
Inductive Entry : Type :=
| Tok (x : Token.t)
| Mwt (m : MultiwordToken.t).

Record t : Type := mk {
  metadata : object;
  tokens : list Entry
}.

(** [new Sentence()]. *)
Definition new : t := mk [] [].

(** [e instanceof MultiwordToken], [e.id] and [e.serial]. *)
Definition is_mwt (e : Entry) : bool :=
  match e with Mwt _ => true | Tok _ => false end.

Definition entry_id (e : Entry) : completion value :=
  match e with
  | Tok x => Normal (Token.id x)
  | Mwt m => MultiwordToken.id m
  end.

Definition entry_serial (e : Entry) : completion jsstring :=
  match e with
  | Tok x => Normal (Token.get_serial x)
  | Mwt m => MultiwordToken.get_serial m
  end.

(** [x.id++] and [x.id = Number(x.id - d)] on a token. *)
Definition increment (x : Token.t) : Token.t :=
  Token.set_id (Num (add (ToNumber (Token.id x)) (Int 1))) x.

Definition decrease (d : Z) (x : Token.t) : Token.t :=
  Token.set_id (Num (sub (ToNumber (Token.id x)) (Int d))) x.

(** What the loops do to an entry past the edited one: the token itself,
    or every child of a group. *)
Definition renumber (f : Token.t -> Token.t) (e : Entry) : Entry :=
  match e with
  | Tok x => Tok (f x)
  | Mwt m =>
      Mwt (MultiwordToken.mk (MultiwordToken.form m)
             (map f (MultiwordToken.tokens m)))
  end.

(** The group [expand] puts in place of token [x]. *)
Definition expanded (x : Token.t) (f : jsstring) (index : Z)
  : MultiwordToken.t :=
  let initial :=
    Token.set_id (Token.id x)
      (Token.set_form (Str (slice2 0 index f)) Token.new) in
  let second :=
    Token.set_id (Num (add (ToNumber (Token.id x)) (Int 1)))
      (Token.set_form (Str (slice1 index f)) Token.new) in
  MultiwordToken.mk (Token.form x) [initial; second].

(** The loop of [expand] from entry [i] on, [ts] being the entries from
    [i] and [found] the flag. *)
Fixpoint expand_loop (token_id : value) (index : Z) (found : bool)
  (ts : list Entry) : completion (list Entry) :=
  match ts with
  | [] => Normal []
  | e :: rest =>
      if found then
        rest' <- expand_loop token_id index true rest ;;
        Normal (renumber increment e :: rest')
      else
        i <- entry_id e ;;
        if strict_equal i token_id && negb (is_mwt e) then
          match e with
          | Tok x =>
              match Token.form x with
              | Str f =>
                  rest' <- expand_loop token_id index true rest ;;
                  Normal (Mwt (expanded x f index) :: rest')
              | _ => Throw TypeError
              end
          | Mwt _ =>
              rest' <- expand_loop token_id index false rest ;;
              Normal (e :: rest')
          end
        else
          rest' <- expand_loop token_id index false rest ;;
          Normal (e :: rest')
  end.

Definition expand (token_id : value) (index : Z) (this : t) : completion t :=
  ts <- expand_loop token_id index false (tokens this) ;;
  Normal (mk (metadata this) ts).

(** The token [collapse] puts in place of group [m]. *)
Definition collapsed (m : MultiwordToken.t) (c : Token.t) : Token.t :=
  Token.set_form (MultiwordToken.form m)
    (Token.set_id (Num (ToNumber (Token.id c))) Token.new).

(** The loop of [collapse]; [found] holds [mwt_length] once the group has
    been replaced. *)
Fixpoint collapse_loop (token_id : value) (found : option Z)
  (ts : list Entry) : completion (list Entry) :=
  match ts with
  | [] => Normal []
  | e :: rest =>
      match found with
      | Some mwt_length =>
          rest' <- collapse_loop token_id found rest ;;
          Normal (renumber (decrease (mwt_length - 1)) e :: rest')
      | None =>
          i <- entry_id e ;;
          if strict_equal i token_id then
            match e with
            | Mwt m =>
                match MultiwordToken.tokens m with
                | c :: _ =>
                    let mwt_length :=
                      Z.of_nat (length (MultiwordToken.tokens m)) in
                    rest' <- collapse_loop token_id (Some mwt_length) rest ;;
                    Normal (Tok (collapsed m c) :: rest')
                | [] => Throw TypeError
                end
            | Tok _ =>
                rest' <- collapse_loop token_id None rest ;;
                Normal (e :: rest')
            end
          else
            rest' <- collapse_loop token_id None rest ;;
            Normal (e :: rest')
      end
  end.

Definition collapse (token_id : value) (this : t) : completion t :=
  ts <- collapse_loop token_id None (tokens this) ;;
  Normal (mk (metadata this) ts).

(** The dot of a regular expression: any code unit but a line
    terminator. *)
Definition is_line_terminator (c : char) : bool :=
  existsb (N.eqb c) [10; 13; 8232; 8233]%N.

Fixpoint dot_star (s : jsstring) : jsstring :=
  match s with
  | [] => []
  | c :: s' => if is_line_terminator c then [] else c :: dot_star s'
  end.

(** The greedy first group: the split of [r] at its last occurrence of
    the separator (space, equals sign, space). *)
Fixpoint last_separator (r : jsstring) : option (jsstring * jsstring) :=
  match r with
  | [] => None
  | c :: r' =>
      match last_separator r' with
      | Some (k, v) => Some (c :: k, v)
      | None =>
          if startsWith (lit " = ") r then Some ([], skipn 3 r) else None
      end
  end.

(** [metadataRegex.exec(line)]: the two groups of the leftmost match of
    a hash and a space, a greedy run of [.], the separator, and a second
    greedy run of [.]. *)
Fixpoint metadataRegex_exec (line : jsstring)
  : option (jsstring * jsstring) :=
  match line with
  | [] => None
  | _ :: line' =>
      match (if startsWith (lit "# ") line
             then last_separator (dot_star (skipn 2 line)) else None) with
      | Some kv => Some kv
      | None => metadataRegex_exec line'
      end
  end.

(** The first loop of the setter: the metadata of the comment lines. *)
Fixpoint metadata_pass (lines : list jsstring) (metadata : object) : object :=
  match lines with
  | [] => metadata
  | line :: rest =>
      if startsWith [HASH] line then
        match metadataRegex_exec line with
        | Some (metadataKey, metadataValue) =>
            metadata_pass rest (obj_set metadataKey metadataValue metadata)
        | None => metadata_pass rest metadata
        end
      else metadata_pass rest metadata
  end.

Definition first_field (line : jsstring) : jsstring :=
  match split TAB line with f :: _ => f | [] => [] end.

(** The text handed to the MultiwordToken: the range line, then every
    line of the input whose first field is a member of the span, then the
    last line break removed. *)
Definition mwtString (lines : list jsstring) (line : jsstring)
  (span : list jsstring) : jsstring :=
  drop_last
    (line ++ [LF]
     ++ concat
          (map (fun l =>
                  concat
                    (map (fun sx =>
                            if str_eqb sx (first_field l)
                            then l ++ [LF] else [])
                         span))
               lines)).

(** The second loop of the setter; [lines] is the whole input, [ls] the
    lines from [i] on, and the state is [tokens] and [mwtSubIds]. *)
Fixpoint token_pass (lines ls : list jsstring) (tokens : list Entry)
  (mwtSubIds : list number) : completion (list Entry) :=
  match ls with
  | [] => Normal tokens
  | line :: rest =>
      let currentLineId := first_field line in
      if negb (startsWith [HASH] line) && negb (str_eqb line []) then
        if includes DASH currentLineId then
          let '(first, last) := Range.bounds currentLineId in
          let span := Range.span first last in
          setMwt <- MultiwordToken.set_serial
                      (mwtString lines line (map NumberToString span))
                      MultiwordToken.new ;;
          token_pass lines rest
            (tokens ++ map Tok (MultiwordToken.tokens setMwt)) span
        else if not_in_numbers (StringToNumber currentLineId) mwtSubIds then
          token_pass lines rest
            (tokens ++ [Tok (Token.set_serial line Token.new)]) mwtSubIds
        else token_pass lines rest tokens mwtSubIds
      else token_pass lines rest tokens mwtSubIds
  end.

(** The [serial] setter. *)
Definition set_serial (arg : jsstring) (this : t) : completion t :=
  let this := mk [] (tokens this) in
  let this := mk (metadata this) [] in
  let lines := split LF arg in
  let this := mk (metadata_pass lines (metadata this)) (tokens this) in
  ts <- token_pass lines lines (tokens this) [] ;;
  Normal (mk (metadata this) ts).

Fixpoint serials (ts : list Entry) : completion (list jsstring) :=
  match ts with
  | [] => Normal []
  | e :: rest =>
      s <- entry_serial e ;;
      r <- serials rest ;;
      Normal (s :: r)
  end.

(** The [serial] getter. *)
Definition get_serial (this : t) : completion jsstring :=
  let metadataLines :=
    map (fun '(metadataKey, metadataValue) =>
           lit "# " ++ metadataKey ++ lit " = " ++ metadataValue)
        (entries (metadata this)) in
  tokenLines <- serials (tokens this) ;;
  Normal (join [LF] (metadataLines ++ tokenLines ++ [[]])).

End Sentence.

(* ================================================================== *)
(** ** Observations and predicates of the statements *)

(** *** Texts *)

(** A line of tab-separated fields, and a text whose every line is ended
    by a line break. *)
Definition row (fields : list string) : jsstring :=
  join [TAB] (map lit fields).

Definition text (lines : list jsstring) : jsstring :=
  concat (map (fun l => l ++ [LF]) lines).

Definition is_digit (c : char) : bool := (48 <=? c)%N && (c <=? 57)%N.

(** The decimal digits of a natural number. *)
Definition digits (n : N) : jsstring := uint_chars (N.to_uint n).

(** [p] occurs in [s]. *)
Fixpoint occurs (p s : jsstring) : bool :=
  startsWith p s
  || match s with
     | [] => false
     | _ :: s' => occurs p s'
     end.

Definition no_line_terminator (s : jsstring) : Prop :=
  Forall (fun c => Sentence.is_line_terminator c = false) s.

(** *** Tokens and identifiers *)

(** A token with an identifier and a form, nothing else set. *)
Definition bare (i f : value) : Token.t :=
  Token.mk i f Undefined Undefined Undefined Undefined Undefined Undefined
    Undefined Undefined.

(** The fields of a token by position, 0 to 9. *)
Definition field (i : nat) (x : Token.t) : value :=
  nth i [Token.id x; Token.form x; Token.lemma x; Token.upostag x;
         Token.xpostag x; Token.feats x; Token.head x; Token.deprel x;
         Token.deps x; Token.misc x] Undefined.

Definition is_tok (e : Sentence.Entry) : Prop :=
  match e with Sentence.Tok _ => True | Sentence.Mwt _ => False end.

(** The identifiers of a sentence in display order, those of the children
    standing for a group. *)
Definition entry_token_ids (e : Sentence.Entry) : list value :=
  match e with
  | Sentence.Tok x => [Token.id x]
  | Sentence.Mwt m => map Token.id (MultiwordToken.tokens m)
  end.

Definition token_ids (ts : list Sentence.Entry) : list value :=
  concat (map entry_token_ids ts).

(** The identifiers 1, 2, ..., n. *)
Definition first_ids (n : nat) : list value :=
  map (fun k => Num (Int (Z.of_nat k))) (seq 1 n).

(** The identifiers [a], [a + 1], ... in this order. *)
Fixpoint ids_from (a : Z) (ids : list value) : Prop :=
  match ids with
  | [] => True
  | v :: r => v = Num (Int a) /\ ids_from (a + 1) r
  end.

Definition integer_id (v : value) : Prop := exists z, v = Num (Int z).

(** An identifier moved by [d]: the identifier as a number, plus [d]. *)
Definition shift_value (d : Z) (v : value) : value :=
  Num (add (ToNumber v) (Int d)).

Definition shift_token (d : Z) (x : Token.t) : Token.t :=
  Token.mk (Num (add (ToNumber (Token.id x)) (Int d)))
    (Token.form x) (Token.lemma x) (Token.upostag x) (Token.xpostag x)
    (Token.feats x) (Token.head x) (Token.deprel x) (Token.deps x)
    (Token.misc x).

(** The identifiers of an entry moved by [d]: that of a standalone token,
    those of the children of a group. *)
Definition shift_ids (d : Z) (e : Sentence.Entry) : Sentence.Entry :=
  match e with
  | Sentence.Tok x => Sentence.Tok (shift_token d x)
  | Sentence.Mwt m =>
      Sentence.Mwt
        (MultiwordToken.mk (MultiwordToken.form m)
           (map (shift_token d) (MultiwordToken.tokens m)))
  end.

(** *** Edits *)

(** The structural edits, and a sequence of them run on a sentence. *)
Inductive edit : Type :=
| Expand (token_id : value) (index : Z)
| Collapse (token_id : value).

Definition apply_edit (o : edit) (s : Sentence.t) : completion Sentence.t :=
  match o with
  | Expand token_id index => Sentence.expand token_id index s
  | Collapse token_id => Sentence.collapse token_id s
  end.

Fixpoint run (ops : list edit) (s : Sentence.t) : completion Sentence.t :=
  match ops with
  | [] => Normal s
  | o :: ops' => s' <- apply_edit o s ;; run ops' s'
  end.

(** An entry the scan of [expand] goes past: a token with another
    identifier, or a group, which must have a child for its range to be
    read. *)
Definition passed_by_expand (token_id : value) (e : Sentence.Entry) : Prop :=
  match e with
  | Sentence.Tok y => strict_equal (Token.id y) token_id = false
  | Sentence.Mwt m => MultiwordToken.tokens m <> []
  end.

(** An entry the scan of [collapse] goes past: a token, or a group whose
    range is not the one asked for. *)
Definition passed_by_collapse (token_id : value) (e : Sentence.Entry)
  : Prop :=
  match e with
  | Sentence.Tok _ => True
  | Sentence.Mwt m =>
      exists i, MultiwordToken.id m = Normal i
                /\ strict_equal i token_id = false
  end.

(** A group has a child; a token or a group has a string for its form. *)
Definition has_child (e : Sentence.Entry) : Prop :=
  match e with
  | Sentence.Tok _ => True
  | Sentence.Mwt m => MultiwordToken.tokens m <> []
  end.

Definition form_is_string (e : Sentence.Entry) : Prop :=
  match e with
  | Sentence.Tok x => exists f, Token.form x = Str f
  | Sentence.Mwt m => exists f, MultiwordToken.form m = Str f
  end.

(** The identifiers, in display order, are 1 to n for some n. *)
Definition numbered (s : Sentence.t) : Prop :=
  exists n, token_ids (Sentence.tokens s) = first_ids n.

(** Every token and group has a form and every group has a child. *)
Definition editable (s : Sentence.t) : Prop :=
  Forall has_child (Sentence.tokens s)
  /\ Forall form_is_string (Sentence.tokens s).

(** *** Metadata *)

(** The key and value of every recognized comment line, in line order. *)
Definition recognized (lines : list jsstring) : list (jsstring * jsstring) :=
  flat_map
    (fun line =>
       if startsWith [HASH] line then
         match Sentence.metadataRegex_exec line with
         | Some kv => [kv]
         | None => []
         end
       else [])
    lines.

(** The keys in the order of their first occurrence. *)
Definition first_occurrences (ks : list jsstring) : list jsstring :=
  rev (nodup str_eq_dec (rev ks)).

(** The value written last for a key. *)
Fixpoint last_write (k : jsstring) (kvs : list (jsstring * jsstring))
  : option jsstring :=
  match kvs with
  | [] => None
  | (k', v) :: r =>
      match last_write k r with
      | Some v' => Some v'
      | None => if str_eqb k' k then Some v else None
      end
  end.

Definition value_or_empty (o : option jsstring) : jsstring :=
  match o with Some v => v | None => [] end.

(** Encounter order, the last write winning. *)
Definition encounter_order (kvs : list (jsstring * jsstring))
  : list (jsstring * jsstring) :=
  map (fun k => (k, value_or_empty (last_write k kvs)))
      (first_occurrences (map fst kvs)).

(** The comment line of a key and a value. *)
Definition metadata_line (e : jsstring * jsstring) : jsstring :=
  lit "# " ++ fst e ++ lit " = " ++ snd e.

(** One step of the metadata loop, as the assignment it is and as the
    definition of an own property it amounts to for an ordinary key. *)
Definition assign (o : object) (kv : jsstring * jsstring) : object :=
  obj_set (fst kv) (snd kv) o.

Definition define (o : object) (kv : jsstring * jsstring) : object :=
  put (fst kv) (snd kv) o.

(** A key that is an own property like any other: not an array index,
    and not [__proto__]. *)
Definition ordinary_key (k : jsstring) : Prop :=
  is_array_index k = false /\ k <> lit "__proto__".

(** *** Well-formed lines *)

(** A comment [# key = value] that reads back as [key] and [value]: no
    line terminator in it, no second separator after the key, and an
    ordinary key. *)
Definition comment_ok (kv : jsstring * jsstring) : Prop :=
  no_line_terminator (fst kv)
  /\ no_line_terminator (snd kv)
  /\ occurs (lit " = ") (32%N :: snd kv) = false
  /\ ordinary_key (fst kv).

(** A field of a token line: not empty, and free of tabs and line breaks. *)
Definition field_ok (f : jsstring) : Prop :=
  f <> [] /\ ~ In TAB f /\ ~ In LF f.

(** A token line: a positive identifier in decimal and nine fields. *)
Definition token_line (r : Z * list jsstring) : jsstring :=
  join [TAB] (NumberToString (Int (fst r)) :: snd r).

Definition token_ok (r : Z * list jsstring) : Prop :=
  0 < fst r /\ length (snd r) = 9%nat /\ Forall field_ok (snd r).

(** *** Sample inputs *)

(** The block of the scenario: a range line and its two children. *)
Definition havent_block : jsstring :=
  text [row ["2-3"; "haven't"; "_"; "_"; "_"; "_"; "_"; "_"; "_"; "_"];
        row ["2"; "have"; "have"; "VERB"; "VBP"; "_"; "0"; "root"; "_"; "_"];
        row ["3"; "not"; "not"; "PART"; "RB"; "_"; "2"; "neg"; "_"; "_"]
       ]%string.

(** Two comments with plain keys and one token line; two comments whose
    keys are array indices. *)
Definition two_plain_keys : jsstring :=
  text [lit "# sent_id = 2"; lit "# text = a = b";
        row ["1"; "I"; "I"; "PRON"; "PRP"; "_"; "2"; "nsubj"; "_"; "_"]
       ]%string.

Definition two_index_keys : jsstring :=
  text [lit "# 2 = b"; lit "# 1 = a"]%string.

(** One token line without its line break. *)
Definition unterminated_line : jsstring :=
  row ["1"; "I"; "I"; "PRON"; "PRP"; "_"; "2"; "nsubj"; "_"; "_"]%string.


Definition ab_group : MultiwordToken.t :=
  MultiwordToken.mk (Str (lit "ab"))
    [bare (Num (Int 1)) (Str (lit "a")); bare (Num (Int 2)) (Str (lit "b"))].


Definition numbered_sentence : Sentence.t :=
  Sentence.mk []
    [Sentence.Tok (bare (Num (Int 1)) (Str (lit "ab")));
     Sentence.Mwt
       (MultiwordToken.mk (Str (lit "cd"))
          [bare (Num (Int 2)) (Str (lit "c"));
           bare (Num (Int 3)) (Str (lit "d"))]);
     Sentence.Tok (bare (Num (Int 4)) (Str (lit "e")))].

Definition unordered_sentence : Sentence.t :=
  Sentence.mk []
    [Sentence.Tok (bare (Num (Int 2)) (Str (lit "ab")));
     Sentence.Tok (bare (Num (Int 1)) (Str (lit "c")))].

(** *** The columns of a serialized token *)

(** The ten values of a token, in the order of the columns. *)
Definition token_fields (x : Token.t) : list value :=
  [Token.id x; Token.form x; Token.lemma x; Token.upostag x;
   Token.xpostag x; Token.feats x; Token.head x; Token.deprel x;
   Token.deps x; Token.misc x].

(** The text the getter gives a value [v] under the test on [guard]. *)
Definition output (guard v : value) : jsstring :=
  if Token.is_set guard then ToString v else Token.placeholder.

(** The ten texts the getter joins with tabs: the form stands under the
    test on the identifier, every other field under its own. *)
Definition outputs (x : Token.t) : list jsstring :=
  [output (Token.id x) (Token.id x); output (Token.id x) (Token.form x);
   output (Token.lemma x) (Token.lemma x);
   output (Token.upostag x) (Token.upostag x);
   output (Token.xpostag x) (Token.xpostag x);
   output (Token.feats x) (Token.feats x);
   output (Token.head x) (Token.head x);
   output (Token.deprel x) (Token.deprel x);
   output (Token.deps x) (Token.deps x);
   output (Token.misc x) (Token.misc x)].

(** What a reader of the serialized token sees: its tab-separated
    columns. *)
Definition columns (x : Token.t) : list jsstring :=
  split TAB (Token.get_serial x).

(** No value of the token has a tab in its text. *)
Definition tab_free (x : Token.t) : Prop :=
  Forall (fun v => ~ In TAB (ToString v)) (token_fields x).

(** A value that is a text without tab, and one that is not empty
    either. *)
Definition text_value (v : value) : Prop :=
  exists g, v = Str g /\ ~ In TAB g.

Definition filled_value (v : value) : Prop :=
  exists g, v = Str g /\ g <> [] /\ ~ In TAB g.


(** *** Lines of a sentence text *)

(** A line the token loop reads: neither a comment nor empty. *)
Definition is_token_line (l : jsstring) : bool :=
  negb (startsWith [HASH] l) && negb (str_eqb l []).

(** A line that is a range line: a token line with a dash in its first
    field. *)
Definition is_range_line (l : jsstring) : bool :=
  is_token_line l && includes DASH (Sentence.first_field l).

(** A line that leaves no trace: an empty line, or a comment in which no
    key and value are recognized. *)
Definition is_ignored_line (l : jsstring) : bool :=
  str_eqb l []
  || (startsWith [HASH] l
      && match Sentence.metadataRegex_exec l with
         | Some _ => false
         | None => true
         end).

(** The entries of a completed parse. *)
Definition tokens_of (c : completion Sentence.t)
  : completion (list Sentence.Entry) :=
  s <- c ;; Normal (Sentence.tokens s).

(** The two loops of the setter on the lines of the text. *)
Definition parse_lines (lines : list jsstring) : completion Sentence.t :=
  ts <- Sentence.token_pass lines lines [] [] ;;
  Normal (Sentence.mk (Sentence.metadata_pass lines []) ts).

(** *** Sentences that can be written and read back *)

(** A value that is a text fit for a column: not empty, without tab or
    line break. *)
Definition line_value (v : value) : Prop :=
  exists g, v = Str g /\ field_ok g.

(** A standalone token with a positive integer identifier whose nine other
    fields are fit for a column. *)
Definition plain_token (e : Sentence.Entry) : Prop :=
  match e with
  | Sentence.Tok x =>
      (exists z, Token.id x = Num (Int z) /\ 0 < z)
      /\ Forall line_value
           [Token.form x; Token.lemma x; Token.upostag x; Token.xpostag x;
            Token.feats x; Token.head x; Token.deprel x; Token.deps x;
            Token.misc x]
  | Sentence.Mwt _ => False
  end.

(** The identifier and the nine other columns of a token. *)
Definition row_of (x : Token.t) : Z * list jsstring :=
  (match Token.id x with Num (Int z) => z | _ => 0 end,
   map ToString
     [Token.form x; Token.lemma x; Token.upostag x; Token.xpostag x;
      Token.feats x; Token.head x; Token.deprel x; Token.deps x;
      Token.misc x]).

(** The two child tokens the setter makes of the block of the scenario. *)
Definition havent_children : Sentence.t :=
  Sentence.mk []
    [Sentence.Tok
       (Token.mk (Num (Int 2)) (Str (lit "have")) (Str (lit "have"))
          (Str (lit "VERB")) (Str (lit "VBP")) (Str (lit "_"))
          (Str (lit "0")) (Str (lit "root")) (Str (lit "_"))
          (Str (lit "_")));
     Sentence.Tok
       (Token.mk (Num (Int 3)) (Str (lit "not")) (Str (lit "not"))
          (Str (lit "PART")) (Str (lit "RB")) (Str (lit "_"))
          (Str (lit "2")) (Str (lit "neg")) (Str (lit "_"))
          (Str (lit "_")))].

(** A sentence with two comments and two tokens. *)
Definition i_am_sentence : Sentence.t :=
  Sentence.mk [(lit "sent_id", lit "2"); (lit "text", lit "I am")]
    [Sentence.Tok
       (Token.mk (Num (Int 1)) (Str (lit "I")) (Str (lit "I"))
          (Str (lit "PRON")) (Str (lit "PRP")) (Str (lit "_"))
          (Str (lit "2")) (Str (lit "nsubj")) (Str (lit "_"))
          (Str (lit "_")));
     Sentence.Tok
       (Token.mk (Num (Int 2)) (Str (lit "am")) (Str (lit "be"))
          (Str (lit "AUX")) (Str (lit "VBP")) (Str (lit "_"))
          (Str (lit "0")) (Str (lit "root")) (Str (lit "_"))
          (Str (lit "_")))].

(** *** Identifiers the arithmetic is exact on *)

(** A natural number below 2^53.  A double holds it exactly, its text is
    its decimal digits, and adding 1 to it or taking from it the length
    of a group loses nothing: on such identifiers the integers of this
    development compute what the code computes. *)
Definition counted (z : Z) : Prop := 0 <= z < 2 ^ 53.

Definition counted_id (v : value) : Prop :=
  exists z, v = Num (Int z) /\ counted z.



(** A token line whose identifier is below 2^53. *)
Definition token_row_ok (r : Z * list jsstring) : Prop :=
  token_ok r /\ fst r < 2 ^ 53.

(** *** First fields that are not numbers *)

(** A character that no numeric literal begins with: it is not white
    space, a digit, a sign, a dot or the letter I of [Infinity]. *)
Definition starts_no_number (c : char) : bool :=
  negb (is_whitespace c || is_digit c || N.eqb c 43 || N.eqb c 45
        || N.eqb c 46 || N.eqb c 73).

(** A first field that [Number] reads as 0 or as NaN: the empty text, or
    a text that begins with such a character. *)
Definition not_numeric (f : jsstring) : Prop :=
  match f with
  | [] => True
  | c :: _ => starts_no_number c = true
  end.

(** *** The tests of the getter *)

(** The field whose test guards column [i] of the serial: the identifier
    for the form, the field itself for every other column. *)
Definition tested (i : nat) : nat := if Nat.eqb i 1 then 0%nat else i.

(** Two token lines, the second with the placeholder for its
    identifier. *)
Definition blank_id_text : jsstring :=
  text [row ["1"; "ab"]; row ["_"; "c"]]%string.

(* ================================================================== *)
(** ** Tactics for concrete lists *)

(** [tac] proves the property of every element of a list given by its
    elements; the elements of such a list are pairwise distinct. *)
Ltac each_element tac :=
  repeat (apply Forall_cons; [tac|]); apply Forall_nil.

Ltac all_distinct :=
  vm_compute;
  repeat (apply NoDup_cons; [cbn [In]; intuition discriminate|]);
  apply NoDup_nil.

(* ================================================================== *)
(** ** Facts about strings *)

Lemma str_eqb_true : forall a b, str_eqb a b = true <-> a = b.
Proof.
  intros a b. unfold str_eqb. destruct (str_eq_dec a b); split; congruence.
Qed.

Lemma str_eqb_false : forall a b, str_eqb a b = false <-> a <> b.
Proof.
  intros a b. unfold str_eqb. destruct (str_eq_dec a b); split; congruence.
Qed.

Lemma str_eqb_refl : forall a, str_eqb a a = true.
Proof. intros a. apply str_eqb_true. reflexivity. Qed.

(** The two halves [expand] cuts a form into make up the form. *)
Lemma slices_make_the_form : forall (index : Z) (f : jsstring),
  slice2 0 index f ++ slice1 index f = f.
Proof.
  intros index f. unfold slice2, slice1.
  replace (clamp (Z.of_nat (length f)) 0) with 0
    by (unfold clamp; cbn; lia).
  cbn [Z.to_nat skipn]. rewrite Z.sub_0_r. apply firstn_skipn.
Qed.

Lemma split_no_sep : forall sep s, ~ In sep s -> split sep s = [s].
Proof.
  intros sep. induction s as [|c s IH]; intros H; [reflexivity|].
  cbn [split]. destruct (N.eqb c sep) eqn:E.
  - apply N.eqb_eq in E. subst c. exfalso. apply H. left. reflexivity.
  - rewrite IH; [reflexivity|]. intros Hin. apply H. right. exact Hin.
Qed.

Lemma split_app_sep : forall sep s rest,
  ~ In sep s -> split sep (s ++ sep :: rest) = s :: split sep rest.
Proof.
  intros sep. induction s as [|c s IH]; intros rest H.
  - cbn [app split]. rewrite N.eqb_refl. reflexivity.
  - cbn [app split]. destruct (N.eqb c sep) eqn:E.
    + apply N.eqb_eq in E. subst c. exfalso. apply H. left. reflexivity.
    + rewrite IH; [reflexivity|]. intros Hin. apply H. right. exact Hin.
Qed.

Lemma split_text : forall ls,
  Forall (fun l => ~ In LF l) ls -> split LF (text ls) = ls ++ [[]].
Proof.
  induction ls as [|l ls IH]; intros H; [reflexivity|].
  inversion H as [|? ? Hl Hls]. subst.
  unfold text. cbn [map concat]. rewrite <- app_assoc. cbn [app].
  rewrite split_app_sep by exact Hl. fold (text ls).
  rewrite (IH Hls). reflexivity.
Qed.

Lemma split_join : forall fs f,
  Forall (fun g => ~ In TAB g) (f :: fs) ->
  split TAB (join [TAB] (f :: fs)) = f :: fs.
Proof.
  induction fs as [|g fs IH]; intros f H.
  - inversion H. subst. cbn [join]. apply split_no_sep. assumption.
  - inversion H as [|? ? Hf Hrest]. subst.
    change (join [TAB] (f :: g :: fs)) with (f ++ TAB :: join [TAB] (g :: fs)).
    rewrite split_app_sep by exact Hf. rewrite (IH g Hrest). reflexivity.
Qed.

Lemma join_lines : forall ls, join [LF] (ls ++ [[]]) = text ls.
Proof.
  induction ls as [|l ls IH]; [reflexivity|].
  unfold text. cbn [map concat]. fold (text ls). rewrite <- IH.
  cbn [app]. destruct (ls ++ [[]]) eqn:E.
  - destruct ls; discriminate E.
  - cbn [join]. rewrite <- app_assoc. reflexivity.
Qed.

(* ================================================================== *)
(** ** Facts about numbers and decimal numerals *)

Lemma uint_chars_digits : forall d,
  Forall (fun c => is_digit c = true) (uint_chars d).
Proof.
  induction d; cbn [uint_chars]; constructor; try assumption; reflexivity.
Qed.

Lemma chars_uint_chars : forall d, chars_uint (uint_chars d) = Some d.
Proof.
  induction d; cbn [uint_chars chars_uint]; try reflexivity;
    rewrite IHd; reflexivity.
Qed.

Lemma uint_chars_inj : forall d1 d2,
  uint_chars d1 = uint_chars d2 -> d1 = d2.
Proof.
  intros d1 d2 H.
  assert (E : Some d1 = Some d2)
    by (rewrite <- (chars_uint_chars d1), <- (chars_uint_chars d2), H;
        reflexivity).
  inversion E. reflexivity.
Qed.

Lemma to_uint_nonnil : forall n : N, N.to_uint n <> Nil.
Proof.
  intros [|p]; [discriminate|].
  apply DecimalPos.Unsigned.to_uint_nonnil.
Qed.

Lemma to_uint_inj : forall a b : N, N.to_uint a = N.to_uint b -> a = b.
Proof.
  intros a b H.
  rewrite <- (DecimalN.Unsigned.of_to a), <- (DecimalN.Unsigned.of_to b), H.
  reflexivity.
Qed.

Lemma digits_are_digits : forall n,
  Forall (fun c => is_digit c = true) (digits n).
Proof. intros n. apply uint_chars_digits. Qed.

Lemma digits_nonempty : forall n, digits n <> [].
Proof.
  intros n H. unfold digits in H.
  destruct (N.to_uint n) eqn:E; try discriminate H.
  exact (to_uint_nonnil n E).
Qed.

Lemma digits_inj : forall a b, digits a = digits b -> a = b.
Proof.
  intros a b H. apply to_uint_inj, uint_chars_inj. exact H.
Qed.

Lemma digits_without : forall n c,
  is_digit c = false -> ~ In c (digits n).
Proof.
  intros n c Hc Hin. pose proof (digits_are_digits n) as Hd.
  rewrite Forall_forall in Hd. rewrite (Hd c Hin) in Hc. discriminate Hc.
Qed.

(** Two runs of digits, each followed by a dash, that start equal texts
    are the same run. *)
Lemma digits_before_dash : forall d1 d2 r1 r2,
  Forall (fun c => is_digit c = true) d1 ->
  Forall (fun c => is_digit c = true) d2 ->
  d1 ++ DASH :: r1 = d2 ++ DASH :: r2 ->
  d1 = d2.
Proof.
  induction d1 as [|c d1 IH]; intros d2 r1 r2 H1 H2 H.
  - destruct d2 as [|c2 d2]; [reflexivity|].
    cbn [app] in H. inversion H. subst c2.
    inversion H2 as [|? ? Hc _]. discriminate Hc.
  - destruct d2 as [|c2 d2].
    + cbn [app] in H. inversion H. subst c.
      inversion H1 as [|? ? Hc _]. discriminate Hc.
    + cbn [app] in H. inversion H. subst c2. f_equal.
      inversion H1. inversion H2. subst. eapply IH; eassumption.
Qed.

Lemma positive_to_string : forall z,
  0 < z -> NumberToString (Int z) = digits (Z.to_N z).
Proof.
  intros z Hz. unfold NumberToString.
  destruct (z <? 0) eqn:E; [apply Z.ltb_lt in E; lia | reflexivity].
Qed.

(** The text of a number before a dash determines the number. *)
Lemma number_before_dash : forall a b r1 r2,
  NumberToString (Int a) ++ DASH :: r1 = NumberToString (Int b) ++ DASH :: r2 ->
  a = b.
Proof.
  intros a b r1 r2 H. unfold NumberToString in H.
  fold (digits (Z.to_N (- a))) in H. fold (digits (Z.to_N a)) in H.
  fold (digits (Z.to_N (- b))) in H. fold (digits (Z.to_N b)) in H.
  destruct (a <? 0) eqn:Ea; destruct (b <? 0) eqn:Eb.
  - apply Z.ltb_lt in Ea, Eb. cbn [app] in H. inversion H as [H'].
    apply digits_before_dash in H'; try apply digits_are_digits.
    apply digits_inj in H'. lia.
  - exfalso. cbn [app] in H.
    pose proof (digits_nonempty (Z.to_N b)) as Hne.
    pose proof (digits_are_digits (Z.to_N b)) as Hd.
    destruct (digits (Z.to_N b)) as [|c r]; [contradiction|].
    cbn [app] in H. inversion H. subst c.
    inversion Hd as [|? ? Hc _]. discriminate Hc.
  - exfalso. cbn [app] in H.
    pose proof (digits_nonempty (Z.to_N a)) as Hne.
    pose proof (digits_are_digits (Z.to_N a)) as Hd.
    destruct (digits (Z.to_N a)) as [|c r]; [contradiction|].
    cbn [app] in H. inversion H. subst c.
    inversion Hd as [|? ? Hc _]. discriminate Hc.
  - apply Z.ltb_ge in Ea, Eb.
    apply digits_before_dash in H; try apply digits_are_digits.
    apply digits_inj in H. lia.
Qed.

Lemma digit_is_not_whitespace : forall c,
  is_digit c = true -> is_whitespace c = false.
Proof.
  intros c Hd. apply not_true_is_false. intros H.
  unfold is_whitespace in H. apply existsb_exists in H.
  destruct H as [w [Hin Hw]]. apply N.eqb_eq in Hw. subst w.
  cbn [In] in Hin.
  repeat (destruct Hin as [Hin|Hin]; [subst c; discriminate Hd|]).
  exact Hin.
Qed.

Lemma trim_left_id : forall c r,
  is_whitespace c = false -> trim_left (c :: r) = c :: r.
Proof. intros c r H. cbn [trim_left]. rewrite H. reflexivity. Qed.

Lemma trim_digits : forall n, trim (digits n) = digits n.
Proof.
  intros n. unfold trim.
  pose proof (digits_nonempty n) as Hne.
  pose proof (digits_are_digits n) as Hd.
  destruct (digits n) as [|c r] eqn:E; [contradiction|].
  inversion Hd as [|? ? Hc _]. subst.
  rewrite trim_left_id by (apply digit_is_not_whitespace; exact Hc).
  apply Forall_rev in Hd.
  destruct (rev (c :: r)) as [|c' r'] eqn:Er.
  - apply (f_equal (@length _)) in Er. rewrite length_rev in Er.
    discriminate Er.
  - inversion Hd as [|? ? Hc' _]. subst.
    rewrite trim_left_id by (apply digit_is_not_whitespace; exact Hc').
    rewrite <- Er. apply rev_involutive.
Qed.

(** [Number(String(n))] is [n] for a non-negative integer. *)
Lemma number_of_digits : forall z,
  0 <= z -> StringToNumber (NumberToString (Int z)) = Int z.
Proof.
  intros z Hz. unfold NumberToString.
  destruct (z <? 0) eqn:E; [apply Z.ltb_lt in E; lia|].
  fold (digits (Z.to_N z)). unfold StringToNumber. rewrite trim_digits.
  pose proof (digits_nonempty (Z.to_N z)) as Hne.
  pose proof (digits_are_digits (Z.to_N z)) as Hd.
  destruct (digits (Z.to_N z)) as [|c r] eqn:Ed; [contradiction|].
  inversion Hd as [|? ? Hc _]. subst.
  assert (H45 : N.eqb c 45 = false).
  { apply N.eqb_neq. intros ->. discriminate Hc. }
  assert (H43 : N.eqb c 43 = false).
  { apply N.eqb_neq. intros ->. discriminate Hc. }
  rewrite H45, H43. unfold unsigned_decimal. rewrite <- Ed.
  unfold digits. rewrite chars_uint_chars, DecimalN.Unsigned.of_to.
  rewrite Z2N.id by exact Hz. reflexivity.
Qed.

Lemma number_eqb_true : forall a b, number_eqb a b = true -> a = b.
Proof.
  intros [x|] [y|] H; try discriminate H.
  apply Z.eqb_eq in H. subst. reflexivity.
Qed.

Lemma strict_equal_true : forall a b, strict_equal a b = true -> a = b.
Proof.
  intros [|x|x] [|y|y] H; try discriminate H; try reflexivity.
  - apply number_eqb_true in H. subst. reflexivity.
  - apply str_eqb_true in H. subst. reflexivity.
Qed.

Lemma other_integer_is_not_equal : forall v k,
  integer_id v -> v <> Num (Int k) -> strict_equal v (Num (Int k)) = false.
Proof.
  intros v k [z Hz] Hne. subst v. cbn [strict_equal number_eqb].
  apply Z.eqb_neq. intros E. subst z. apply Hne. reflexivity.
Qed.

(* ================================================================== *)
(** ** Facts about objects *)

Lemma keys_put : forall k v o,
  map fst (put k v o)
  = if in_dec str_eq_dec k (map fst o) then map fst o else map fst o ++ [k].
Proof.
  intros k v. induction o as [|[k' v'] o IH]; [reflexivity|].
  cbn [put map fst]. destruct (str_eqb k' k) eqn:E.
  - apply str_eqb_true in E. subst k'.
    destruct (in_dec str_eq_dec k (k :: map fst o)) as [_|n];
      [reflexivity | exfalso; apply n; left; reflexivity].
  - apply str_eqb_false in E. cbn [map fst]. rewrite IH.
    destruct (in_dec str_eq_dec k (map fst o)) as [i|n];
      destruct (in_dec str_eq_dec k (k' :: map fst o)) as [i'|n'];
      try reflexivity.
    + exfalso. apply n'. right. exact i.
    + exfalso. destruct i' as [e|i']; [exact (E e) | exact (n i')].
Qed.

Lemma obj_get_put : forall k k' v o,
  obj_get k (put k' v o) = if str_eqb k' k then Some v else obj_get k o.
Proof.
  intros k k' v. induction o as [|[k1 v1] o IH].
  - reflexivity.
  - cbn [put obj_get]. destruct (str_eqb k1 k') eqn:E1.
    + apply str_eqb_true in E1. subst k1. cbn [obj_get].
      destruct (str_eqb k' k); reflexivity.
    + cbn [obj_get]. destruct (str_eqb k1 k) eqn:E2.
      * apply str_eqb_true in E2. subst k1.
        destruct (str_eqb k' k) eqn:E3; [|reflexivity].
        apply str_eqb_true in E3. subst k'.
        rewrite str_eqb_refl in E1. discriminate E1.
      * exact IH.
Qed.

Lemma put_fresh : forall k v o,
  ~ In k (map fst o) -> put k v o = o ++ [(k, v)].
Proof.
  intros k v. induction o as [|[k' v'] o IH]; intros H; [reflexivity|].
  cbn [put]. destruct (str_eqb k' k) eqn:E.
  - apply str_eqb_true in E. subst k'. exfalso. apply H. left. reflexivity.
  - rewrite IH; [reflexivity|]. intros Hin. apply H. right. exact Hin.
Qed.

Lemma object_by_keys : forall o : object,
  NoDup (map fst o) ->
  o = map (fun k => (k, value_or_empty (obj_get k o))) (map fst o).
Proof.
  induction o as [|[k v] o IH]; intros Hnd; [reflexivity|].
  cbn [map fst] in *. inversion Hnd as [|? ? Hnotin Hnd']. subst.
  cbn [obj_get]. rewrite str_eqb_refl. cbn [value_or_empty]. f_equal.
  rewrite (IH Hnd') at 1. apply map_ext_in. intros k' Hin.
  cbn [obj_get]. destruct (str_eqb k k') eqn:E; [|reflexivity].
  apply str_eqb_true in E. subst k'. contradiction.
Qed.

Lemma entries_without_index_keys : forall o : object,
  Forall (fun kv => is_array_index (fst kv) = false) o ->
  entries o = o.
Proof.
  intros o H. unfold entries.
  assert (H1 : filter (fun e => is_array_index (fst e)) o = []).
  { induction H as [|kv o Hkv _ IH]; [reflexivity|].
    cbn [filter]. rewrite Hkv. exact IH. }
  assert (H2 : filter (fun e => negb (is_array_index (fst e))) o = o).
  { clear H1. induction H as [|kv o Hkv _ IH]; [reflexivity|].
    cbn [filter]. rewrite Hkv. cbn [negb]. f_equal. exact IH. }
  rewrite H1, H2. reflexivity.
Qed.

(* ================================================================== *)
(** ** The setter starts from a cleared sentence *)

(** C10: assigning a text to [serial] gives the same result whatever the
    sentence held before: the setter clears [metadata] and [tokens] first. *)
Theorem set_serial_forgets_previous_state :
  forall (T : jsstring) (s1 s2 : Sentence.t),
    Sentence.set_serial T s1 = Sentence.set_serial T s2.
Proof.
  intros T s1 s2. unfold Sentence.set_serial.
  cbn [Sentence.metadata Sentence.tokens]. reflexivity.
Qed.

(* ================================================================== *)
(** ** Token: the setter never refuses a line *)

Lemma array_get_beyond : forall (a : list jsstring) (i : nat),
  (length a <= i)%nat -> array_get a i = Undefined.
Proof.
  intros a i H. unfold array_get.
  apply nth_error_None in H. rewrite H. reflexivity.
Qed.

Lemma array_get_within : forall (a : list jsstring) (i : nat),
  (i < length a)%nat -> array_get a i = Str (nth i a []).
Proof.
  intros a i H. unfold array_get.
  rewrite (nth_error_nth' a [] H). reflexivity.
Qed.

(** What is left of a text that begins with a character that is not white
    space, once trimmed, begins with it. *)
Lemma trim_left_last : forall l c,
  is_whitespace c = false ->
  exists l', trim_left (l ++ [c]) = l' ++ [c].
Proof.
  induction l as [|a l IH]; intros c Hc.
  - exists []. cbn [app trim_left]. rewrite Hc. reflexivity.
  - cbn [app trim_left]. destruct (is_whitespace a).
    + exact (IH c Hc).
    + exists (a :: l). reflexivity.
Qed.

Lemma trim_keeps_head : forall c r,
  is_whitespace c = false -> exists r', trim (c :: r) = c :: r'.
Proof.
  intros c r Hc. unfold trim. rewrite trim_left_id by exact Hc.
  cbn [rev]. destruct (trim_left_last (rev r) c Hc) as [l' Hl'].
  rewrite Hl', rev_app_distr. exists (rev l'). reflexivity.
Qed.

Lemma chars_uint_head : forall c s d,
  chars_uint (c :: s) = Some d -> is_digit c = true.
Proof.
  intros c s d H. cbn [chars_uint] in H.
  destruct (chars_uint s) as [d'|]; [|discriminate H].
  destruct c as [|p]; [discriminate H|].
  do 7 (try (destruct p as [p|p|])); try discriminate H; reflexivity.
Qed.

(** [Number] of a first field that does not begin like a number is 0 or
    NaN, which the setter takes for false. *)
Lemma not_numeric_is_falsy : forall f,
  not_numeric f -> truthy (StringToNumber f) = false.
Proof.
  intros [|c r] H; [reflexivity|]. cbn [not_numeric] in H.
  unfold starts_no_number in H. apply negb_true_iff in H.
  apply orb_false_iff in H. destruct H as [H _].
  apply orb_false_iff in H. destruct H as [H _].
  apply orb_false_iff in H. destruct H as [H H45].
  apply orb_false_iff in H. destruct H as [H H43].
  apply orb_false_iff in H. destruct H as [Hw Hd].
  destruct (trim_keeps_head c r Hw) as [r' Hr'].
  unfold StringToNumber. rewrite Hr', H45, H43.
  unfold unsigned_decimal.
  destruct (chars_uint (c :: r')) as [d|] eqn:E; [|reflexivity].
  apply chars_uint_head in E. congruence.
Qed.

(** The first field of a line, as the setter stores it. *)
Lemma identifier_of_line : forall line this,
  Token.id (Token.set_serial line this)
  = if truthy (StringToNumber (nth 0 (split TAB line) []))
    then Num (StringToNumber (nth 0 (split TAB line) []))
    else Str (nth 0 (split TAB line) []).
Proof.
  intros line this. unfold Token.set_serial. cbn [Token.id].
  destruct (split TAB line); reflexivity.
Qed.

(** C7, as the code has it: a line with fewer than ten fields is parsed
    into a Token all the same.  The fields after the first that are
    present are stored as they are and the missing ones are left
    undefined; the first field becomes the identifier, as the number it
    denotes when it is the decimal text of a positive integer below 2^53,
    and as the text itself when it is empty or begins with a character
    that no numeric literal begins with. *)
Theorem short_line_gives_token_with_unset_fields :
  forall (line : jsstring) (n : nat),
    n = length (split TAB line) ->
    (n < 10)%nat ->
    exists x : Token.t,
      Token.parse line = Normal x
      /\ (forall i, (n <= i < 10)%nat -> field i x = Undefined)
      /\ (forall i, (1 <= i < n)%nat ->
            field i x = Str (nth i (split TAB line) []))
      /\ (forall z, 0 < z < 2 ^ 53 ->
            nth 0 (split TAB line) [] = NumberToString (Int z) ->
            field 0 x = Num (Int z))
      /\ (not_numeric (nth 0 (split TAB line) []) ->
            field 0 x = Str (nth 0 (split TAB line) [])).
Proof.
  intros line n Hn Hlt. eexists. split; [reflexivity|].
  split; [|split; [|split]].
  - intros i Hi. unfold Token.set_serial.
    assert (Hc : (i = 0 \/ i = 1 \/ i = 2 \/ i = 3 \/ i = 4 \/ i = 5 \/ i = 6
                 \/ i = 7 \/ i = 8 \/ i = 9)%nat) by lia.
    assert (Hpos : (0 < n)%nat).
    { subst n. destruct line as [|c r]; simpl; [lia|].
      destruct (N.eqb c TAB); simpl; [lia|].
      destruct (split TAB r); simpl; lia. }
    repeat (destruct Hc as [Hc|Hc]);
      subst i; try lia; cbn [field nth Token.id Token.form Token.lemma
        Token.upostag Token.xpostag Token.feats Token.head Token.deprel
        Token.deps Token.misc]; apply array_get_beyond; lia.
  - intros i Hi. unfold Token.set_serial.
    assert (Hc : (i = 1 \/ i = 2 \/ i = 3 \/ i = 4 \/ i = 5 \/ i = 6
                 \/ i = 7 \/ i = 8 \/ i = 9)%nat) by lia.
    repeat (destruct Hc as [Hc|Hc]);
      subst i; cbn [field nth Token.id Token.form Token.lemma
        Token.upostag Token.xpostag Token.feats Token.head Token.deprel
        Token.deps Token.misc]; apply array_get_within; lia.
  - intros z Hz Hf.
    change (field 0 (Token.set_serial line Token.new))
      with (Token.id (Token.set_serial line Token.new)).
    rewrite identifier_of_line, Hf, number_of_digits by lia.
    replace (truthy (Int z)) with true; [reflexivity|].
    symmetry. cbn [truthy]. apply negb_true_iff, Z.eqb_neq. lia.
  - intros Hf.
    change (field 0 (Token.set_serial line Token.new))
      with (Token.id (Token.set_serial line Token.new)).
    rewrite identifier_of_line, (not_numeric_is_falsy _ Hf). reflexivity.
Qed.

Lemma short_line_gives_token_with_unset_fields_witness :
  exists x : Token.t,
    Token.parse (row ["1"; "a"]%string) = Normal x
    /\ (forall i, (2 <= i < 10)%nat -> field i x = Undefined)
    /\ (forall i, (1 <= i < 2)%nat ->
          field i x = Str (nth i (split TAB (row ["1"; "a"]%string)) []))
    /\ (forall z, 0 < z < 2 ^ 53 ->
          nth 0 (split TAB (row ["1"; "a"]%string)) []
          = NumberToString (Int z) ->
          field 0 x = Num (Int z))
    /\ (not_numeric (nth 0 (split TAB (row ["1"; "a"]%string)) []) ->
          field 0 x = Str (nth 0 (split TAB (row ["1"; "a"]%string)) [])).
Proof.
  apply (short_line_gives_token_with_unset_fields
           (row ["1"; "a"]%string) 2); [reflexivity | lia].
Defined.

(** C7 fails as stated: the two-field line [1 TAB a] is not refused. *)
Lemma short_line_is_not_refused :
  (length (split TAB (row ["1"; "a"]%string)) < 10)%nat
  /\ Token.parse (row ["1"; "a"]%string)
     = Normal (bare (Num (Int 1)) (Str (lit "a")))
  /\ Token.parse (row ["1"; "a"]%string) <> Throw MalformedLineError.
Proof.
  split; [vm_compute; lia|]. split; [reflexivity | discriminate].
Qed.

(* ================================================================== *)
(** ** Sentence: what the setter appends for a range line *)

Lemma token_pass_appends_tokens_only :
  forall lines ls tokens ids ts,
    Forall is_tok tokens ->
    Sentence.token_pass lines ls tokens ids = Normal ts ->
    Forall is_tok ts.
Proof.
  intros lines ls. induction ls as [|line rest IH]; intros tokens ids ts Hall H.
  - cbn [Sentence.token_pass] in H. inversion H. subst. exact Hall.
  - cbn [Sentence.token_pass] in H.
    destruct (negb (startsWith [HASH] line) && negb (str_eqb line []));
      [|apply IH in H; assumption].
    destruct (includes DASH (Sentence.first_field line)).
    + destruct (Range.bounds (Sentence.first_field line))
        as [first last].
      destruct (MultiwordToken.set_serial
                  (Sentence.mwtString lines line
                     (map NumberToString (Range.span first last)))
                  MultiwordToken.new) as [m|e];
        cbn [bind] in H; [|discriminate H].
      apply IH in H; [exact H|].
      apply Forall_app. split; [exact Hall|].
      apply Forall_forall. intros e He. apply in_map_iff in He.
      destruct He as [x [Hx _]]. subst e. exact I.
    + destruct (not_in_numbers
                  (StringToNumber (Sentence.first_field line)) ids).
      * apply IH in H; [exact H|].
        apply Forall_app. split; [exact Hall|].
        constructor; [exact I | constructor].
      * apply IH in H; assumption.
Qed.

(** No text makes the setter put a MultiwordToken among [tokens]. *)
Lemma set_serial_gives_tokens_only :
  forall T this s,
    Sentence.set_serial T this = Normal s ->
    Forall is_tok (Sentence.tokens s).
Proof.
  intros T this s H. unfold Sentence.set_serial in H.
  cbn [Sentence.metadata Sentence.tokens] in H.
  destruct (Sentence.token_pass _ _ _ _) as [ts|e] eqn:E; cbn [bind] in H;
    [|discriminate H].
  inversion H. subst. simpl.
  eapply token_pass_appends_tokens_only; [|exact E]. constructor.
Qed.

(** C2 at the failing input: the range line [2-3 haven't] followed by the
    lines of tokens 2 and 3 is parsed into the two child tokens alone;
    [tokens] holds no MultiwordToken and the form of the group is gone. *)
Theorem range_line_leaves_only_its_children :
  Sentence.set_serial havent_block Sentence.new
  = Normal
      (Sentence.mk []
         [Sentence.Tok
            (Token.mk (Num (Int 2)) (Str (lit "have")) (Str (lit "have"))
               (Str (lit "VERB")) (Str (lit "VBP")) (Str (lit "_"))
               (Str (lit "0")) (Str (lit "root")) (Str (lit "_"))
               (Str (lit "_")));
          Sentence.Tok
            (Token.mk (Num (Int 3)) (Str (lit "not")) (Str (lit "not"))
               (Str (lit "PART")) (Str (lit "RB")) (Str (lit "_"))
               (Str (lit "2")) (Str (lit "neg")) (Str (lit "_"))
               (Str (lit "_")))]).
Proof.
  vm_compute. reflexivity.
Qed.

(* ================================================================== *)
(** ** Sentence: the order of the metadata *)

Lemma metadata_pass_is_fold : forall lines o,
  Sentence.metadata_pass lines o = fold_left assign (recognized lines) o.
Proof.
  induction lines as [|line rest IH]; intros o; [reflexivity|].
  cbn [Sentence.metadata_pass recognized flat_map].
  fold (recognized rest).
  destruct (startsWith [HASH] line); [|apply IH].
  destruct (Sentence.metadataRegex_exec line) as [[k v]|]; [|apply IH].
  cbn [app fold_left]. apply IH.
Qed.

(** A comment whose key is [__proto__] is recognized and stores nothing. *)
Lemma proto_key_is_not_stored :
  recognized [lit "# __proto__ = x"] = [(lit "__proto__", lit "x")]
  /\ Sentence.metadata_pass [lit "# __proto__ = x"] [] = [].
Proof. split; vm_compute; reflexivity. Qed.

Lemma fold_assign_define : forall kvs o,
  Forall (fun kv => ordinary_key (fst kv)) kvs ->
  fold_left assign kvs o = fold_left define kvs o.
Proof.
  induction kvs as [|kv kvs IH]; intros o H; [reflexivity|].
  inversion H as [|? ? [_ Hkv] Hkvs]. subst. cbn [fold_left].
  rewrite <- (IH _ Hkvs). f_equal. unfold assign, define, obj_set.
  apply str_eqb_false in Hkv. rewrite Hkv. reflexivity.
Qed.

Lemma first_occurrences_snoc : forall ks k,
  first_occurrences (ks ++ [k])
  = if in_dec str_eq_dec k ks then first_occurrences ks
    else first_occurrences ks ++ [k].
Proof.
  intros ks k. unfold first_occurrences. rewrite rev_app_distr.
  cbn [rev app nodup].
  destruct (in_dec str_eq_dec k (rev ks)) as [i|n];
    destruct (in_dec str_eq_dec k ks) as [i'|n']; try reflexivity.
  - exfalso. apply n'. apply in_rev. exact i.
  - exfalso. apply n. apply in_rev in i'. exact i'.
Qed.

Lemma in_first_occurrences : forall ks k,
  In k (first_occurrences ks) <-> In k ks.
Proof.
  intros ks k. unfold first_occurrences.
  rewrite <- in_rev, nodup_In, <- in_rev. reflexivity.
Qed.

Lemma NoDup_first_occurrences : forall ks, NoDup (first_occurrences ks).
Proof.
  intros ks. unfold first_occurrences. apply NoDup_rev, NoDup_nodup.
Qed.

Lemma keys_of_fold : forall kvs,
  map fst (fold_left define kvs []) = first_occurrences (map fst kvs).
Proof.
  induction kvs as [|[k v] kvs IH] using rev_ind; [reflexivity|].
  rewrite fold_left_app. cbn [fold_left]. unfold define at 1. cbn [fst snd].
  rewrite keys_put, map_app. cbn [map fst].
  rewrite first_occurrences_snoc, IH.
  destruct (in_dec str_eq_dec k (first_occurrences (map fst kvs))) as [i|n];
    destruct (in_dec str_eq_dec k (map fst kvs)) as [i'|n']; try reflexivity.
  - exfalso. apply n'. apply in_first_occurrences. exact i.
  - exfalso. apply n. apply in_first_occurrences. exact i'.
Qed.

Lemma get_of_fold : forall kvs o k,
  obj_get k (fold_left define kvs o)
  = match last_write k kvs with
    | Some v => Some v
    | None => obj_get k o
    end.
Proof.
  induction kvs as [|[k' v] kvs IH]; intros o k; [reflexivity|].
  cbn [fold_left last_write]. rewrite IH.
  destruct (last_write k kvs); [reflexivity|].
  unfold define. cbn [fst snd]. rewrite obj_get_put.
  destruct (str_eqb k' k); reflexivity.
Qed.

Lemma fold_is_encounter_order : forall kvs,
  fold_left define kvs [] = encounter_order kvs.
Proof.
  intros kvs. unfold encounter_order.
  rewrite (object_by_keys (fold_left define kvs [])).
  - rewrite keys_of_fold. apply map_ext. intros k.
    rewrite get_of_fold. destruct (last_write k kvs); reflexivity.
  - rewrite keys_of_fold. apply NoDup_first_occurrences.
Qed.

Lemma serials_of_tokens : forall ts,
  Forall is_tok ts -> exists ls, Sentence.serials ts = Normal ls.
Proof.
  induction ts as [|e ts IH]; intros H.
  - exists []. reflexivity.
  - inversion H as [|? ? He Hts]. subst. destruct (IH Hts) as [ls Hls].
    destruct e as [x|m]; [|contradiction].
    exists (Token.get_serial x :: ls).
    cbn [Sentence.serials Sentence.entry_serial bind]. rewrite Hls.
    reflexivity.
Qed.

Lemma set_serial_metadata : forall T this s,
  Sentence.set_serial T this = Normal s ->
  Sentence.metadata s = fold_left assign (recognized (split LF T)) [].
Proof.
  intros T this s H. unfold Sentence.set_serial in H.
  cbn [Sentence.metadata Sentence.tokens] in H.
  destruct (Sentence.token_pass _ _ _ _) as [ts|e]; cbn [bind] in H;
    [|discriminate H].
  inversion H. subst. cbn [Sentence.metadata].
  apply metadata_pass_is_fold.
Qed.

(** C9, as the code has it: when every recognized key is ordinary
    (neither an array index nor [__proto__]), the metadata of the parsed
    sentence enumerates the recognized keys in the order of their first
    occurrence, each with the value written last, and the serialization
    starts with one line for each of them in that order. *)
Theorem metadata_keeps_encounter_order :
  forall (T : jsstring) (this s : Sentence.t),
    Sentence.set_serial T this = Normal s ->
    Forall (fun kv => ordinary_key (fst kv)) (recognized (split LF T)) ->
    entries (Sentence.metadata s) = encounter_order (recognized (split LF T))
    /\ (forall k, obj_get k (Sentence.metadata s)
                  = last_write k (recognized (split LF T)))
    /\ exists tokenLines,
         Sentence.serials (Sentence.tokens s) = Normal tokenLines
         /\ Sentence.get_serial s
            = Normal
                (join [LF]
                   (map metadata_line
                        (encounter_order (recognized (split LF T)))
                    ++ tokenLines ++ [[]])).
Proof.
  intros T this s H Hidx.
  pose proof (set_serial_metadata T this s H) as Hmd.
  assert (He : entries (Sentence.metadata s)
               = encounter_order (recognized (split LF T))).
  { rewrite Hmd, (fold_assign_define _ _ Hidx), fold_is_encounter_order.
    apply entries_without_index_keys.
    apply Forall_forall. intros [k v] Hin. cbn [fst].
    unfold encounter_order in Hin. apply in_map_iff in Hin.
    destruct Hin as [k0 [Hk0 Hin]]. inversion Hk0. subst k0.
    apply (proj1 (in_first_occurrences _ _)) in Hin.
    apply in_map_iff in Hin.
    destruct Hin as [[k1 v1] [Hk1 Hin]]. cbn [fst] in Hk1. subst k1.
    rewrite Forall_forall in Hidx. exact (proj1 (Hidx (k, v1) Hin)). }
  split; [exact He|]. split.
  - intros k. rewrite Hmd, (fold_assign_define _ _ Hidx), get_of_fold.
    destruct (last_write k (recognized (split LF T))); reflexivity.
  - destruct (serials_of_tokens (Sentence.tokens s)) as [ls Hls].
    { eapply set_serial_gives_tokens_only. exact H. }
    exists ls. split; [exact Hls|].
    unfold Sentence.get_serial. rewrite Hls. cbn [bind]. rewrite He.
    do 3 f_equal. apply map_ext. intros [k v]. reflexivity.
Qed.

Lemma ordinary_keys_by_computation :
  forall kvs : list (jsstring * jsstring),
    forallb (fun kv => negb (is_array_index (fst kv))
                       && negb (str_eqb (fst kv) (lit "__proto__")))
            kvs = true ->
    Forall (fun kv => ordinary_key (fst kv)) kvs.
Proof.
  intros kvs H. apply Forall_forall. intros kv Hin.
  rewrite forallb_forall in H. specialize (H kv Hin).
  apply andb_true_iff in H. destruct H as [H1 H2]. split.
  - apply negb_true_iff. exact H1.
  - apply str_eqb_false. apply negb_true_iff. exact H2.
Qed.

Lemma metadata_keeps_encounter_order_witness :
  exists s,
    Sentence.set_serial two_plain_keys Sentence.new = Normal s
    /\ (entries (Sentence.metadata s)
        = encounter_order (recognized (split LF two_plain_keys))
        /\ (forall k, obj_get k (Sentence.metadata s)
                      = last_write k (recognized (split LF two_plain_keys)))
        /\ exists tokenLines,
             Sentence.serials (Sentence.tokens s) = Normal tokenLines
             /\ Sentence.get_serial s
                = Normal
                    (join [LF]
                       (map metadata_line
                          (encounter_order
                             (recognized (split LF two_plain_keys)))
                        ++ tokenLines ++ [[]]))).
Proof.
  eexists. split; [vm_compute; reflexivity|].
  apply (metadata_keeps_encounter_order two_plain_keys Sentence.new).
  - vm_compute; reflexivity.
  - apply ordinary_keys_by_computation. vm_compute; reflexivity.
Defined.

(** C9 fails as stated: the keys [2] and [1], met in this order, are
    enumerated and serialized as [1] and then [2]. *)
Lemma index_keys_are_reordered :
  recognized (split LF two_index_keys)
  = [(lit "2", lit "b"); (lit "1", lit "a")]
  /\ exists s,
       Sentence.set_serial two_index_keys Sentence.new = Normal s
       /\ entries (Sentence.metadata s)
          = [(lit "1", lit "a"); (lit "2", lit "b")]
       /\ entries (Sentence.metadata s)
          <> encounter_order (recognized (split LF two_index_keys))
       /\ Sentence.get_serial s
          = Normal (text [lit "# 1 = a"; lit "# 2 = b"]%string).
Proof.
  split; [vm_compute; reflexivity|].
  eexists. split; [vm_compute; reflexivity|].
  split; [vm_compute; reflexivity|].
  split; [vm_compute; discriminate | vm_compute; reflexivity].
Qed.

(* ================================================================== *)
(** ** Sentence: what [expand] and [collapse] do *)

Lemma token_ids_app : forall a b,
  token_ids (a ++ b) = token_ids a ++ token_ids b.
Proof.
  intros a b. unfold token_ids. rewrite map_app, concat_app. reflexivity.
Qed.

Lemma token_ids_cons : forall e ts,
  token_ids (e :: ts) = entry_token_ids e ++ token_ids ts.
Proof. reflexivity. Qed.

Lemma token_ids_shift : forall d ts,
  token_ids (map (shift_ids d) ts) = map (shift_value d) (token_ids ts).
Proof.
  intros d. induction ts as [|e ts IH]; [reflexivity|].
  cbn [map]. rewrite !token_ids_cons, map_app, IH. f_equal.
  destruct e as [x|m]; cbn [shift_ids entry_token_ids map];
    [reflexivity|].
  cbn [MultiwordToken.tokens]. rewrite !map_map. reflexivity.
Qed.

Lemma increment_is_shift : forall x, Sentence.increment x = shift_token 1 x.
Proof. intros x. reflexivity. Qed.

Lemma decrease_is_shift : forall d x,
  Sentence.decrease d x = shift_token (- d) x.
Proof.
  intros d x. unfold Sentence.decrease, shift_token, Token.set_id.
  destruct (ToNumber (Token.id x)) as [z|]; cbn [sub add]; [|reflexivity].
  replace (z - d) with (z + - d) by lia. reflexivity.
Qed.

Lemma renumber_increment : forall e,
  Sentence.renumber Sentence.increment e = shift_ids 1 e.
Proof. intros [x|m]; reflexivity. Qed.

Lemma renumber_decrease : forall d e,
  Sentence.renumber (Sentence.decrease d) e = shift_ids (- d) e.
Proof.
  intros d [x|m]; cbn [Sentence.renumber shift_ids].
  - rewrite decrease_is_shift. reflexivity.
  - rewrite (map_ext _ _ (decrease_is_shift d)). reflexivity.
Qed.

Lemma expand_loop_found : forall token_id index ts,
  Sentence.expand_loop token_id index true ts = Normal (map (shift_ids 1) ts).
Proof.
  intros token_id index. induction ts as [|e ts IH]; [reflexivity|].
  cbn [Sentence.expand_loop]. rewrite IH. cbn [bind map].
  rewrite renumber_increment. reflexivity.
Qed.

Lemma collapse_loop_found : forall token_id len ts,
  Sentence.collapse_loop token_id (Some len) ts
  = Normal (map (shift_ids (- (len - 1))) ts).
Proof.
  intros token_id len. induction ts as [|e ts IH]; [reflexivity|].
  cbn [Sentence.collapse_loop]. rewrite IH. cbn [bind map].
  rewrite renumber_decrease. reflexivity.
Qed.

Lemma expand_loop_prefix : forall token_id index pre rest,
  Forall (passed_by_expand token_id) pre ->
  Sentence.expand_loop token_id index false (pre ++ rest)
  = (r <- Sentence.expand_loop token_id index false rest ;;
     Normal (pre ++ r)).
Proof.
  intros token_id index pre rest H.
  induction H as [|e pre He _ IH].
  - cbn [app]. destruct (Sentence.expand_loop token_id index false rest);
      reflexivity.
  - cbn [app Sentence.expand_loop]. destruct e as [y|m].
    + cbn [Sentence.entry_id bind Sentence.is_mwt negb].
      cbn [passed_by_expand] in He. rewrite He. cbn [andb].
      rewrite IH.
      destruct (Sentence.expand_loop token_id index false rest); reflexivity.
    + cbn [passed_by_expand] in He. cbn [Sentence.entry_id].
      unfold MultiwordToken.id.
      destruct (MultiwordToken.tokens m) as [|c r]; [contradiction|].
      cbn [bind Sentence.is_mwt negb]. rewrite andb_false_r.
      rewrite IH.
      destruct (Sentence.expand_loop token_id index false rest); reflexivity.
Qed.

Lemma collapse_loop_prefix : forall token_id pre rest,
  Forall (passed_by_collapse token_id) pre ->
  Sentence.collapse_loop token_id None (pre ++ rest)
  = (r <- Sentence.collapse_loop token_id None rest ;;
     Normal (pre ++ r)).
Proof.
  intros token_id pre rest H.
  induction H as [|e pre He _ IH].
  - cbn [app]. destruct (Sentence.collapse_loop token_id None rest);
      reflexivity.
  - cbn [app Sentence.collapse_loop]. destruct e as [y|m].
    + cbn [Sentence.entry_id bind].
      rewrite IH.
      destruct (strict_equal (Token.id y) token_id);
        destruct (Sentence.collapse_loop token_id None rest); reflexivity.
    + cbn [passed_by_collapse] in He. destruct He as [i [Hi Hne]].
      cbn [Sentence.entry_id]. rewrite Hi. cbn [bind]. rewrite Hne.
      rewrite IH.
      destruct (Sentence.collapse_loop token_id None rest); reflexivity.
Qed.

(** The result of [expand] at the first standalone token that has the
    identifier asked for. *)
Lemma expand_at_first_match :
  forall (md : object) (pre post : list Sentence.Entry) (x : Token.t)
         (token_id : value) (index : Z) (f : jsstring),
    Forall (passed_by_expand token_id) pre ->
    strict_equal (Token.id x) token_id = true ->
    Token.form x = Str f ->
    Sentence.expand token_id index
      (Sentence.mk md (pre ++ Sentence.Tok x :: post))
    = Normal
        (Sentence.mk md
           (pre
            ++ Sentence.Mwt
                 (MultiwordToken.mk (Str f)
                    [bare token_id (Str (slice2 0 index f));
                     bare (Num (add (ToNumber token_id) (Int 1)))
                          (Str (slice1 index f))])
            :: map (shift_ids 1) post)).
Proof.
  intros md pre post x token_id index f Hpre Hid Hform.
  unfold Sentence.expand. cbn [Sentence.tokens Sentence.metadata].
  rewrite (expand_loop_prefix token_id index pre _ Hpre).
  cbn [Sentence.expand_loop Sentence.entry_id bind Sentence.is_mwt negb].
  rewrite Hid. cbn [andb]. rewrite Hform, expand_loop_found. cbn [bind].
  unfold Sentence.expanded. rewrite Hform.
  apply strict_equal_true in Hid. rewrite Hid. reflexivity.
Qed.




(** [collapse] where no group has the range asked for. *)
Lemma collapse_without_match :
  forall (md : object) (ts : list Sentence.Entry) (token_id : value),
    Forall (passed_by_collapse token_id) ts ->
    Sentence.collapse token_id (Sentence.mk md ts)
    = Normal (Sentence.mk md ts).
Proof.
  intros md ts token_id Hts.
  unfold Sentence.collapse. cbn [Sentence.tokens Sentence.metadata].
  rewrite <- (app_nil_r ts) at 1.
  rewrite (collapse_loop_prefix token_id ts [] Hts).
  cbn [Sentence.collapse_loop bind]. rewrite app_nil_r. reflexivity.
Qed.

(** The result of [collapse] at the first group that has the range asked
    for. *)
Lemma collapse_at_first_match :
  forall (md : object) (pre post : list Sentence.Entry) (token_id : value)
         (m : MultiwordToken.t) (c : Token.t) (cs : list Token.t)
         (i : value),
    Forall (passed_by_collapse token_id) pre ->
    MultiwordToken.tokens m = c :: cs ->
    MultiwordToken.id m = Normal i ->
    strict_equal i token_id = true ->
    Sentence.collapse token_id
      (Sentence.mk md (pre ++ Sentence.Mwt m :: post))
    = Normal
        (Sentence.mk md
           (pre
            ++ Sentence.Tok
                 (bare (Num (ToNumber (Token.id c)))
                       (MultiwordToken.form m))
            :: map (shift_ids (- Z.of_nat (length cs))) post)).
Proof.
  intros md pre post token_id m c cs i Hpre Hm Hi Heq.
  unfold Sentence.collapse. cbn [Sentence.tokens Sentence.metadata].
  rewrite (collapse_loop_prefix token_id pre _ Hpre).
  cbn [Sentence.collapse_loop Sentence.entry_id]. rewrite Hi.
  cbn [bind]. rewrite Heq, Hm, collapse_loop_found. cbn [bind].
  replace (Z.of_nat (length (c :: cs)) - 1) with (Z.of_nat (length cs))
    by (cbn [length]; lia).
  reflexivity.
Qed.



(* ================================================================== *)
(** ** Sentence: [collapse] after [expand] *)

Lemma in_token_ids : forall e ts v,
  In e ts -> In v (entry_token_ids e) -> In v (token_ids ts).
Proof.
  intros e ts v He Hv. unfold token_ids. apply in_concat.
  exists (entry_token_ids e). split; [|exact Hv].
  apply in_map. exact He.
Qed.

Lemma shift_token_back : forall d x,
  integer_id (Token.id x) -> shift_token (- d) (shift_token d x) = x.
Proof.
  intros d x [z Hz]. destruct x as [i f l u xp fe h dr dp mi].
  cbn [Token.id] in Hz. subst i. unfold shift_token.
  cbn [Token.id Token.form Token.lemma Token.upostag Token.xpostag
       Token.feats Token.head Token.deprel Token.deps Token.misc
       ToNumber add].
  replace (z + d + - d) with z by lia. reflexivity.
Qed.

Lemma shift_ids_back : forall d e,
  Forall integer_id (entry_token_ids e) ->
  shift_ids (- d) (shift_ids d e) = e.
Proof.
  intros d [x|m] H; cbn [shift_ids entry_token_ids] in *.
  - inversion H. subst. rewrite shift_token_back; [reflexivity | assumption].
  - destruct m as [f cs]. cbn [MultiwordToken.form MultiwordToken.tokens] in *.
    f_equal. f_equal. rewrite map_map.
    induction cs as [|c cs IH]; [reflexivity|].
    cbn [map] in *. inversion H. subst.
    rewrite shift_token_back by assumption. f_equal. apply IH. assumption.
Qed.

Lemma shift_all_back : forall d ts,
  Forall integer_id (token_ids ts) ->
  map (shift_ids (- d)) (map (shift_ids d) ts) = ts.
Proof.
  intros d. induction ts as [|e ts IH]; intros H; [reflexivity|].
  rewrite token_ids_cons in H. apply Forall_app in H. destruct H as [He Hts].
  cbn [map]. rewrite shift_ids_back by exact He. f_equal. exact (IH Hts).
Qed.

(** With distinct integer identifiers, the scan of [expand] for [k]
    reaches the token that carries [k]. *)
Lemma scan_reaches_token : forall pre k,
  Forall integer_id (token_ids pre) ->
  ~ In (Num (Int k)) (token_ids pre) ->
  Forall has_child pre ->
  Forall (passed_by_expand (Num (Int k))) pre.
Proof.
  intros pre k Hint Hnotin Hch. apply Forall_forall. intros e He.
  rewrite Forall_forall in Hint, Hch. destruct e as [y|m].
  - cbn [passed_by_expand].
    assert (Hy : In (Token.id y) (token_ids pre))
      by (apply (in_token_ids _ _ _ He); left; reflexivity).
    apply other_integer_is_not_equal; [exact (Hint _ Hy)|].
    intros E. rewrite E in Hy. exact (Hnotin Hy).
  - exact (Hch _ He).
Qed.

(** And the scan of [collapse] for the range that starts at [k] goes past
    every group before it. *)
Lemma scan_reaches_group : forall pre k tail,
  Forall integer_id (token_ids pre) ->
  ~ In (Num (Int k)) (token_ids pre) ->
  Forall has_child pre ->
  Forall (passed_by_collapse
            (Str (NumberToString (Int k) ++ DASH :: tail))) pre.
Proof.
  intros pre k tail Hint Hnotin Hch. apply Forall_forall. intros e He.
  rewrite Forall_forall in Hint, Hch. destruct e as [y|m]; [exact I|].
  cbn [passed_by_collapse]. pose proof (Hch _ He) as Hm. cbn [has_child] in Hm.
  unfold MultiwordToken.id.
  destruct (MultiwordToken.tokens m) as [|c r] eqn:Em; [contradiction|].
  eexists. split; [reflexivity|].
  assert (Hc : In (Token.id c) (token_ids pre)).
  { apply (in_token_ids _ _ _ He). cbn [entry_token_ids]. rewrite Em.
    left. reflexivity. }
  destruct (Hint _ Hc) as [a Ha]. rewrite Ha.
  cbn [strict_equal ToString]. apply str_eqb_false. intros E.
  cbn [app] in E. apply number_before_dash in E. subst a.
  rewrite Ha in Hc. exact (Hnotin Hc).
Qed.

(** [collapse] after [expand], on identifiers that are distinct
    integers. *)
Lemma collapse_after_expand :
  forall (md : object) (pre post : list Sentence.Entry) (x : Token.t)
         (k index : Z) (f : jsstring),
    Forall integer_id (token_ids (pre ++ Sentence.Tok x :: post)) ->
    NoDup (token_ids (pre ++ Sentence.Tok x :: post)) ->
    Forall has_child (pre ++ Sentence.Tok x :: post) ->
    Token.id x = Num (Int k) ->
    Token.form x = Str f ->
    exists (s1 s2 : Sentence.t) (g : MultiwordToken.t) (resultId : value),
      Sentence.expand (Num (Int k)) index
        (Sentence.mk md (pre ++ Sentence.Tok x :: post)) = Normal s1
      /\ nth_error (Sentence.tokens s1) (length pre) = Some (Sentence.Mwt g)
      /\ MultiwordToken.id g = Normal resultId
      /\ Sentence.collapse resultId s1 = Normal s2
      /\ length (Sentence.tokens s2) = length (pre ++ Sentence.Tok x :: post)
      /\ map Sentence.entry_id (Sentence.tokens s2)
         = map Sentence.entry_id (pre ++ Sentence.Tok x :: post)
      /\ token_ids (Sentence.tokens s2)
         = token_ids (pre ++ Sentence.Tok x :: post).
Proof.
  intros md pre post x k index f Hint Hnd Hch Hid Hform.
  rewrite token_ids_app, token_ids_cons in Hint, Hnd.
  cbn [entry_token_ids app] in Hint, Hnd.
  apply NoDup_remove_2 in Hnd. rewrite Hid in Hnd.
  apply Forall_app in Hint. destruct Hint as [Hpre Hrest].
  inversion Hrest as [|? ? _ Hpost]. subst.
  apply Forall_app in Hch. destruct Hch as [Hchpre _].
  assert (Hnotin : ~ In (Num (Int k)) (token_ids pre))
    by (intros Hin; apply Hnd; apply in_or_app; left; exact Hin).
  pose proof (scan_reaches_token pre k Hpre Hnotin Hchpre) as Hscan.
  assert (Hx : strict_equal (Token.id x) (Num (Int k)) = true)
    by (rewrite Hid; cbn [strict_equal number_eqb]; apply Z.eqb_refl).
  pose proof (expand_at_first_match md pre post x (Num (Int k)) index f
                Hscan Hx Hform) as Hexp.
  cbn [ToNumber add] in Hexp.
  set (c1 := bare (Num (Int k)) (Str (slice2 0 index f))) in *.
  set (c2 := bare (Num (Int (k + 1))) (Str (slice1 index f))) in *.
  set (g := MultiwordToken.mk (Str f) [c1; c2]) in *.
  set (rid := Str (NumberToString (Int k)
                   ++ DASH :: NumberToString (Int (k + 1)))).
  assert (Hg : MultiwordToken.id g = Normal rid) by reflexivity.
  pose proof (scan_reaches_group pre k (NumberToString (Int (k + 1)))
                Hpre Hnotin Hchpre) as Hscan2.
  assert (Hrid : strict_equal rid rid = true)
    by (unfold rid; cbn [strict_equal]; apply str_eqb_refl).
  pose proof (collapse_at_first_match md pre (map (shift_ids 1) post) rid
                g c1 [c2] rid Hscan2 eq_refl Hg Hrid) as Hcol.
  cbn [length Z.of_nat] in Hcol.
  change (- Z.pos (Pos.of_succ_nat 0)) with (- (1)) in Hcol.
  rewrite (shift_all_back 1 post Hpost) in Hcol.
  change (Num (ToNumber (Token.id c1))) with (Num (Int k)) in Hcol.
  change (MultiwordToken.form g) with (Str f) in Hcol.
  eexists. eexists. exists g, rid.
  split; [exact Hexp|].
  split.
  { cbn [Sentence.tokens]. rewrite nth_error_app2 by lia.
    rewrite Nat.sub_diag. reflexivity. }
  split; [exact Hg|].
  split; [exact Hcol|].
  cbn [Sentence.tokens].
  split; [rewrite !length_app; reflexivity|].
  split.
  - rewrite !map_app. cbn [map Sentence.entry_id Token.id bare].
    rewrite Hid. reflexivity.
  - rewrite !token_ids_app, !token_ids_cons.
    cbn [entry_token_ids Token.id bare]. rewrite Hid. reflexivity.
Qed.


Lemma counted_is_integer : forall v, counted_id v -> integer_id v.
Proof. intros v [z [Hz _]]. exists z. exact Hz. Qed.

(** C6, as the code has it: on a sentence whose identifiers are pairwise
    distinct natural numbers below 2^53 and whose groups have children,
    [expand] at the token of identifier [k], whose form is a string,
    followed by [collapse] at the range of the group it made gives back
    the number of entries and the identifiers of the sentence, entry by
    entry and token by token. *)
Theorem collapse_undoes_expand :
  forall (md : object) (pre post : list Sentence.Entry) (x : Token.t)
         (k index : Z) (f : jsstring),
    Forall counted_id (token_ids (pre ++ Sentence.Tok x :: post)) ->
    NoDup (token_ids (pre ++ Sentence.Tok x :: post)) ->
    Forall has_child (pre ++ Sentence.Tok x :: post) ->
    Token.id x = Num (Int k) ->
    Token.form x = Str f ->
    exists (s1 s2 : Sentence.t) (g : MultiwordToken.t) (resultId : value),
      Sentence.expand (Num (Int k)) index
        (Sentence.mk md (pre ++ Sentence.Tok x :: post)) = Normal s1
      /\ nth_error (Sentence.tokens s1) (length pre) = Some (Sentence.Mwt g)
      /\ MultiwordToken.id g = Normal resultId
      /\ Sentence.collapse resultId s1 = Normal s2
      /\ length (Sentence.tokens s2) = length (pre ++ Sentence.Tok x :: post)
      /\ map Sentence.entry_id (Sentence.tokens s2)
         = map Sentence.entry_id (pre ++ Sentence.Tok x :: post)
      /\ token_ids (Sentence.tokens s2)
         = token_ids (pre ++ Sentence.Tok x :: post).
Proof.
  intros md pre post x k index f Hids Hnd Hch Hid Hform.
  apply (collapse_after_expand md pre post x k index f);
    try assumption.
  eapply Forall_impl; [|exact Hids]. exact counted_is_integer.
Qed.

Lemma collapse_undoes_expand_witness :
  exists (s1 s2 : Sentence.t) (g : MultiwordToken.t) (resultId : value),
    Sentence.expand (Num (Int 3)) 1
      (Sentence.mk []
         ([Sentence.Mwt ab_group]
          ++ Sentence.Tok (bare (Num (Int 3)) (Str (lit "cd")))
          :: [Sentence.Tok (bare (Num (Int 4)) (Str (lit "e")))]))
    = Normal s1
    /\ nth_error (Sentence.tokens s1) 1 = Some (Sentence.Mwt g)
    /\ MultiwordToken.id g = Normal resultId
    /\ Sentence.collapse resultId s1 = Normal s2
    /\ length (Sentence.tokens s2) = 3%nat
    /\ map Sentence.entry_id (Sentence.tokens s2)
       = [Normal (Str (lit "1-2")); Normal (Num (Int 3)); Normal (Num (Int 4))]
    /\ token_ids (Sentence.tokens s2)
       = [Num (Int 1); Num (Int 2); Num (Int 3); Num (Int 4)].
Proof.
  apply (collapse_undoes_expand []
           [Sentence.Mwt ab_group]
           [Sentence.Tok (bare (Num (Int 4)) (Str (lit "e")))]
           (bare (Num (Int 3)) (Str (lit "cd"))) 3 1 (lit "cd")).
  - each_element ltac:(eexists; split; [reflexivity | unfold counted; lia]).
  - all_distinct.
  - each_element ltac:(cbn [has_child]; try exact I; discriminate).
  - reflexivity.
  - reflexivity.
Defined.

(** C6 fails as stated: the setter makes of the lines [1 ab] and [_ c] a
    sentence with the identifiers 1 and [_]; [expand] at 1 and [collapse]
    at the range of the group it made leave the identifiers 1 and NaN. *)
Lemma blank_id_is_not_restored :
  exists (S s1 s2 : Sentence.t) (g : MultiwordToken.t) (resultId : value),
    Sentence.set_serial blank_id_text Sentence.new = Normal S
    /\ token_ids (Sentence.tokens S) = [Num (Int 1); Str (lit "_")]
    /\ Sentence.expand (Num (Int 1)) 1 S = Normal s1
    /\ nth_error (Sentence.tokens s1) 0 = Some (Sentence.Mwt g)
    /\ MultiwordToken.id g = Normal resultId
    /\ Sentence.collapse resultId s1 = Normal s2
    /\ length (Sentence.tokens s2) = length (Sentence.tokens S)
    /\ token_ids (Sentence.tokens s2) = [Num (Int 1); Num NaN]
    /\ token_ids (Sentence.tokens s2) <> token_ids (Sentence.tokens S).
Proof.
  do 5 eexists.
  split; [vm_compute; reflexivity|].
  split; [reflexivity|].
  split; [vm_compute; reflexivity|].
  split; [reflexivity|].
  split; [reflexivity|].
  split; [vm_compute; reflexivity|].
  split; [reflexivity|].
  split; [reflexivity | discriminate].
Qed.

(* ================================================================== *)
(** ** Sentence: the identifiers stay 1, 2, ..., n *)

Lemma ids_from_seq : forall ids (s : nat),
  ids_from (Z.of_nat s) ids
  <-> ids = map (fun k => Num (Int (Z.of_nat k))) (seq s (length ids)).
Proof.
  induction ids as [|v r IH]; intros s.
  - cbn. split; [reflexivity | exact (fun _ => I)].
  - cbn [ids_from length seq map].
    replace (Z.of_nat s + 1) with (Z.of_nat (S s)) by lia.
    rewrite IH. split.
    + intros [Hv Hr]. rewrite Hv, <- Hr. reflexivity.
    + intros H. injection H as Hv Hr. split; [exact Hv | exact Hr].
Qed.

Lemma numbered_iff : forall s,
  numbered s <-> ids_from 1 (token_ids (Sentence.tokens s)).
Proof.
  intros s. unfold numbered, first_ids. split.
  - intros [n Hn]. apply (ids_from_seq _ 1). rewrite Hn at 1.
    rewrite Hn, length_map, length_seq. reflexivity.
  - intros H. apply (ids_from_seq _ 1) in H. eexists. exact H.
Qed.

Lemma ids_from_app : forall l1 l2 a,
  ids_from a (l1 ++ l2)
  <-> ids_from a l1 /\ ids_from (a + Z.of_nat (length l1)) l2.
Proof.
  induction l1 as [|v l1 IH]; intros l2 a.
  - cbn [app length ids_from Z.of_nat]. rewrite Z.add_0_r. tauto.
  - cbn [app length ids_from]. rewrite IH.
    replace (a + 1 + Z.of_nat (length l1))
      with (a + Z.of_nat (S (length l1))) by lia.
    tauto.
Qed.

Lemma ids_from_shift : forall d l a,
  ids_from a l -> ids_from (a + d) (map (shift_value d) l).
Proof.
  intros d. induction l as [|v l IH]; intros a H; [exact I|].
  cbn [ids_from map] in *. destruct H as [Hv Hl]. split.
  - rewrite Hv. reflexivity.
  - replace (a + d + 1) with (a + 1 + d) by lia. apply IH. exact Hl.
Qed.

Lemma shift_keeps_editable : forall d ts,
  Forall has_child ts /\ Forall form_is_string ts ->
  Forall has_child (map (shift_ids d) ts)
  /\ Forall form_is_string (map (shift_ids d) ts).
Proof.
  intros d ts [Hc Hf]. split; apply Forall_map.
  - eapply Forall_impl; [|exact Hc]. intros [x|m] H; [exact I|].
    cbn [shift_ids has_child MultiwordToken.tokens] in *.
    destruct (MultiwordToken.tokens m); [contradiction | discriminate].
  - eapply Forall_impl; [|exact Hf]. intros [x|m] H; exact H.
Qed.

(** The scan of [expand] either goes past every entry or stops at a
    first standalone token that has the identifier. *)
Lemma expand_scan : forall token_id ts,
  Forall has_child ts ->
  Forall (passed_by_expand token_id) ts
  \/ exists pre x post,
       ts = pre ++ Sentence.Tok x :: post
       /\ Forall (passed_by_expand token_id) pre
       /\ strict_equal (Token.id x) token_id = true.
Proof.
  intros token_id. induction ts as [|e ts IH]; intros H.
  - left. constructor.
  - inversion H as [|? ? He Hts]. subst.
    assert (Hcase : passed_by_expand token_id e
                    \/ exists x, e = Sentence.Tok x
                                 /\ strict_equal (Token.id x) token_id = true).
    { destruct e as [x|m]; [|left; exact He].
      cbn [passed_by_expand].
      destruct (strict_equal (Token.id x) token_id) eqn:E;
        [right; exists x; split; [reflexivity | exact E]
        | left; reflexivity]. }
    destruct Hcase as [Hp|[x [Hx Heq]]].
    + destruct (IH Hts) as [Hall|[pre [x [post [Hts' [Hpre Heq]]]]]].
      * left. constructor; assumption.
      * right. exists (e :: pre), x, post. subst ts.
        split; [reflexivity|]. split; [constructor|]; assumption.
    + right. exists [], x, ts. subst e.
      split; [reflexivity|]. split; [constructor | exact Heq].
Qed.

(** The scan of [collapse] either goes past every entry or stops at a
    first group that has the range. *)
Lemma collapse_scan : forall token_id ts,
  Forall has_child ts ->
  Forall (passed_by_collapse token_id) ts
  \/ exists pre m c cs post i,
       ts = pre ++ Sentence.Mwt m :: post
       /\ Forall (passed_by_collapse token_id) pre
       /\ MultiwordToken.tokens m = c :: cs
       /\ MultiwordToken.id m = Normal i
       /\ strict_equal i token_id = true.
Proof.
  intros token_id. induction ts as [|e ts IH]; intros H.
  - left. constructor.
  - inversion H as [|? ? He Hts]. subst.
    assert (Hcase : passed_by_collapse token_id e
                    \/ exists m c cs i,
                         e = Sentence.Mwt m
                         /\ MultiwordToken.tokens m = c :: cs
                         /\ MultiwordToken.id m = Normal i
                         /\ strict_equal i token_id = true).
    { destruct e as [x|m]; [left; exact I|].
      cbn [has_child] in He. cbn [passed_by_collapse].
      unfold MultiwordToken.id.
      destruct (MultiwordToken.tokens m) as [|c cs] eqn:Em; [contradiction|].
      match goal with
      | |- context [Normal ?v] => destruct (strict_equal v token_id) eqn:E
      end.
      - right. exists m, c, cs. eexists.
        split; [reflexivity|]. split; [exact Em|].
        split; [unfold MultiwordToken.id; rewrite Em; reflexivity | exact E].
      - left. eexists. split; [reflexivity | exact E]. }
    destruct Hcase as [Hp|[m [c [cs [i [Hm [Hcs [Hi Heq]]]]]]]].
    + destruct (IH Hts)
        as [Hall|[pre [m [c [cs [post [i [Hts' [Hpre Hrest]]]]]]]]].
      * left. constructor; assumption.
      * right. exists (e :: pre), m, c, cs, post, i. subst ts.
        split; [reflexivity|]. split; [constructor; assumption | exact Hrest].
    + right. exists [], m, c, cs, ts, i. subst e.
      split; [reflexivity|]. split; [constructor|]. repeat split; assumption.
Qed.

Lemma expand_without_match : forall md ts token_id index,
  Forall (passed_by_expand token_id) ts ->
  Sentence.expand token_id index (Sentence.mk md ts)
  = Normal (Sentence.mk md ts).
Proof.
  intros md ts token_id index Hts.
  unfold Sentence.expand. cbn [Sentence.tokens Sentence.metadata].
  rewrite <- (app_nil_r ts) at 1.
  rewrite (expand_loop_prefix token_id index ts [] Hts).
  cbn [Sentence.expand_loop bind]. rewrite app_nil_r. reflexivity.
Qed.

Lemma expand_keeps_numbering : forall token_id index s,
  numbered s -> editable s ->
  exists s', Sentence.expand token_id index s = Normal s'
             /\ numbered s' /\ editable s'.
Proof.
  intros token_id index [md ts] Hnum [Hch Hfs].
  cbn [Sentence.tokens] in Hch, Hfs.
  destruct (expand_scan token_id ts Hch)
    as [Hall|[pre [x [post [Hts [Hpre Heq]]]]]].
  - exists (Sentence.mk md ts).
    split; [|split; [exact Hnum | split; assumption]].
    apply expand_without_match. exact Hall.
  - subst ts. apply numbered_iff in Hnum. cbn [Sentence.tokens] in Hnum.
    rewrite token_ids_app, token_ids_cons in Hnum.
    cbn [entry_token_ids app] in Hnum.
    apply ids_from_app in Hnum. destruct Hnum as [Hp Hrest].
    cbn [ids_from] in Hrest. destruct Hrest as [Hx Hpost].
    apply Forall_app in Hch. destruct Hch as [Hchpre Hchrest].
    apply Forall_app in Hfs. destruct Hfs as [Hfpre Hfrest].
    inversion Hchrest as [|? ? _ Hchpost]. subst.
    inversion Hfrest as [|? ? Hfx Hfpost]. subst.
    cbn [form_is_string] in Hfx. destruct Hfx as [f Hf].
    eexists. split;
      [exact (expand_at_first_match md pre post x token_id index f
                Hpre Heq Hf)|].
    apply strict_equal_true in Heq. rewrite Hx in Heq. subst token_id.
    destruct (shift_keeps_editable 1 post (conj Hchpost Hfpost))
      as [Hchs Hfss].
    split; [|split].
    + apply numbered_iff. cbn [Sentence.tokens].
      rewrite token_ids_app, token_ids_cons, token_ids_shift.
      cbn [entry_token_ids MultiwordToken.tokens map Token.id bare app
           ToNumber add].
      apply ids_from_app. split; [exact Hp|].
      cbn [ids_from]. split; [reflexivity|]. split; [reflexivity|].
      apply ids_from_shift. exact Hpost.
    + cbn [Sentence.tokens]. apply Forall_app. split; [exact Hchpre|].
      constructor; [discriminate | exact Hchs].
    + cbn [Sentence.tokens]. apply Forall_app. split; [exact Hfpre|].
      constructor; [exists f; reflexivity | exact Hfss].
Qed.

Lemma ids_from_length_step : forall (cs : list Token.t) a,
  a + 1 + Z.of_nat (length (map Token.id cs)) + - Z.of_nat (length cs)
  = a + 1.
Proof. intros cs a. rewrite length_map. lia. Qed.

Lemma collapse_keeps_numbering : forall token_id s,
  numbered s -> editable s ->
  exists s', Sentence.collapse token_id s = Normal s'
             /\ numbered s' /\ editable s'.
Proof.
  intros token_id [md ts] Hnum [Hch Hfs].
  cbn [Sentence.tokens] in Hch, Hfs.
  destruct (collapse_scan token_id ts Hch)
    as [Hall|[pre [m [c [cs [post [i [Hts [Hpre [Hm [Hi Heq]]]]]]]]]]].
  - exists (Sentence.mk md ts).
    split; [|split; [exact Hnum | split; assumption]].
    apply collapse_without_match. exact Hall.
  - subst ts. apply numbered_iff in Hnum. cbn [Sentence.tokens] in Hnum.
    rewrite token_ids_app, token_ids_cons in Hnum.
    cbn [entry_token_ids] in Hnum. rewrite Hm in Hnum. cbn [map app] in Hnum.
    apply ids_from_app in Hnum. destruct Hnum as [Hp Hrest].
    cbn [ids_from] in Hrest. destruct Hrest as [Hc Hrest].
    apply ids_from_app in Hrest. destruct Hrest as [_ Hpost].
    apply Forall_app in Hch. destruct Hch as [Hchpre Hchrest].
    apply Forall_app in Hfs. destruct Hfs as [Hfpre Hfrest].
    inversion Hchrest as [|? ? _ Hchpost]. subst.
    inversion Hfrest as [|? ? Hfx Hfpost]. subst.
    cbn [form_is_string] in Hfx. destruct Hfx as [f Hf].
    eexists. split;
      [exact (collapse_at_first_match md pre post token_id m c cs i
                Hpre Hm Hi Heq)|].
    destruct (shift_keeps_editable (- Z.of_nat (length cs)) post
                (conj Hchpost Hfpost)) as [Hchs Hfss].
    split; [|split].
    + apply numbered_iff. cbn [Sentence.tokens].
      rewrite token_ids_app, token_ids_cons, token_ids_shift.
      cbn [entry_token_ids Token.id bare app]. rewrite Hc.
      cbn [ToNumber]. apply ids_from_app. split; [exact Hp|].
      cbn [ids_from]. split; [reflexivity|].
      rewrite <- (ids_from_length_step cs).
      apply ids_from_shift. exact Hpost.
    + cbn [Sentence.tokens]. apply Forall_app. split; [exact Hchpre|].
      constructor; [exact I | exact Hchs].
    + cbn [Sentence.tokens]. apply Forall_app. split; [exact Hfpre|].
      constructor; [exists f; exact Hf | exact Hfss].
Qed.

(** C3, as the code has it: on a sentence whose identifiers, read in
    display order over the tokens and the children of the groups, are
    1, 2, ..., n, and whose entries have a form and groups a child, every
    sequence of [expand] and [collapse] runs to its end, and the
    identifiers in display order are then 1, 2, ..., m for some m. *)
Theorem edits_keep_ids_contiguous :
  forall (ops : list edit) (s : Sentence.t),
    numbered s -> editable s ->
    exists (s' : Sentence.t) (m : nat),
      run ops s = Normal s'
      /\ token_ids (Sentence.tokens s') = first_ids m.
Proof.
  assert (H : forall ops s, numbered s -> editable s ->
              exists s', run ops s = Normal s' /\ numbered s' /\ editable s').
  { induction ops as [|o ops IH]; intros s Hn He.
    - exists s. split; [reflexivity | split; assumption].
    - assert (Hstep : exists s1, apply_edit o s = Normal s1
                                 /\ numbered s1 /\ editable s1).
      { destruct o as [token_id index|token_id]; cbn [apply_edit].
        - apply expand_keeps_numbering; assumption.
        - apply collapse_keeps_numbering; assumption. }
      destruct Hstep as [s1 [Hs1 [Hn1 He1]]].
      destruct (IH s1 Hn1 He1) as [s' [Hs' Hrest]].
      exists s'. split; [|exact Hrest].
      cbn [run]. rewrite Hs1. cbn [bind]. exact Hs'. }
  intros ops s Hn He. destruct (H ops s Hn He) as [s' [Hs' [[m Hm] _]]].
  exists s', m. split; assumption.
Qed.

Lemma edits_keep_ids_contiguous_witness :
  exists (s' : Sentence.t) (m : nat),
    run [Expand (Num (Int 1)) 1; Collapse (Str (lit "3-4"));
         Expand (Num (Int 4)) 0]
        numbered_sentence = Normal s'
    /\ token_ids (Sentence.tokens s') = first_ids m.
Proof.
  apply (edits_keep_ids_contiguous
           [Expand (Num (Int 1)) 1; Collapse (Str (lit "3-4"));
            Expand (Num (Int 4)) 0]
           numbered_sentence).
  - exists 4%nat. reflexivity.
  - split.
    + each_element ltac:(cbn [has_child]; try exact I; discriminate).
    + each_element ltac:(eexists; reflexivity).
Defined.

(** C3 fails as stated: the identifiers 2, 1 are the set 1 to 2, and one
    [expand] at 2 leaves the identifiers 2, 3, 2. *)
Lemma unordered_ids_get_duplicated :
  Permutation (token_ids (Sentence.tokens unordered_sentence)) (first_ids 2)
  /\ exists s',
       run [Expand (Num (Int 2)) 1] unordered_sentence = Normal s'
       /\ token_ids (Sentence.tokens s')
          = [Num (Int 2); Num (Int 3); Num (Int 2)]
       /\ ~ NoDup (token_ids (Sentence.tokens s'))
       /\ ~ exists m,
              Permutation (token_ids (Sentence.tokens s')) (first_ids m).
Proof.
  split; [apply perm_swap|].
  eexists. split; [reflexivity|]. split; [reflexivity|]. split.
  - intros H. inversion H as [|? ? Hnotin _]. apply Hnotin.
    right. left. reflexivity.
  - intros [m H]. pose proof (Permutation_length H) as Hlen.
    unfold first_ids in Hlen. rewrite length_map, length_seq in Hlen.
    cbn in Hlen. subst m.
    apply Permutation_sym in H.
    assert (Hin : In (Num (Int 1)) (first_ids 3)) by (left; reflexivity).
    apply (Permutation_in _ H) in Hin. cbn in Hin.
    intuition discriminate.
Qed.

(* ================================================================== *)
(** ** Sentence: parsing and serializing back *)

Lemma last_separator_none : forall r,
  occurs (lit " = ") r = false -> Sentence.last_separator r = None.
Proof.
  induction r as [|c r IH]; intros H; [reflexivity|].
  cbn [occurs] in H. apply orb_false_iff in H. destruct H as [Hs Hr].
  cbn [Sentence.last_separator]. rewrite (IH Hr), Hs. reflexivity.
Qed.

Lemma last_separator_cons : forall c r,
  Sentence.last_separator (c :: r)
  = match Sentence.last_separator r with
    | Some (k, v) => Some (c :: k, v)
    | None =>
        if startsWith (lit " = ") (c :: r) then Some ([], skipn 3 (c :: r))
        else None
    end.
Proof. reflexivity. Qed.

Lemma last_separator_found : forall k v,
  occurs (lit " = ") (32%N :: v) = false ->
  Sentence.last_separator (k ++ lit " = " ++ v) = Some (k, v).
Proof.
  intros k v H. induction k as [|c k IH].
  - change ([] ++ lit " = " ++ v) with (32%N :: 61%N :: 32%N :: v).
    rewrite last_separator_cons, last_separator_none; [reflexivity|].
    change (occurs (lit " = ") (61%N :: 32%N :: v))
      with (false || occurs (lit " = ") (32%N :: v)).
    exact H.
  - cbn [app]. rewrite last_separator_cons, IH. reflexivity.
Qed.

Lemma dot_star_id : forall s, no_line_terminator s -> Sentence.dot_star s = s.
Proof.
  induction s as [|c s IH]; intros H; [reflexivity|].
  inversion H as [|? ? Hc Hs]. subst. cbn [Sentence.dot_star].
  rewrite Hc, (IH Hs). reflexivity.
Qed.

Lemma exec_metadata_line : forall kv,
  comment_ok kv ->
  Sentence.metadataRegex_exec (metadata_line kv) = Some kv.
Proof.
  intros [k v] [Hk [Hv [Hsep _]]]. cbn [fst snd] in *.
  unfold metadata_line. cbn [fst snd].
  change (lit "# " ++ k ++ lit " = " ++ v)
    with (35%N :: 32%N :: k ++ lit " = " ++ v).
  cbn [Sentence.metadataRegex_exec].
  change (startsWith (lit "# ") (35%N :: 32%N :: k ++ lit " = " ++ v))
    with true.
  cbn [skipn]. rewrite dot_star_id.
  - rewrite (last_separator_found k v Hsep). reflexivity.
  - apply Forall_app. split; [exact Hk|].
    apply Forall_app. split; [|exact Hv].
    repeat constructor.
Qed.

Lemma recognized_app : forall l1 l2,
  recognized (l1 ++ l2) = recognized l1 ++ recognized l2.
Proof. intros l1 l2. unfold recognized. apply flat_map_app. Qed.

Lemma recognized_comments : forall kvs,
  Forall comment_ok kvs -> recognized (map metadata_line kvs) = kvs.
Proof.
  induction kvs as [|kv kvs IH]; intros H; [reflexivity|].
  inversion H as [|? ? Hkv Hkvs]. subst.
  cbn [map recognized flat_map]. fold (recognized (map metadata_line kvs)).
  rewrite (exec_metadata_line kv Hkv), (IH Hkvs). reflexivity.
Qed.

Lemma token_line_starts_with_digit : forall r,
  0 < fst r ->
  exists c rest, token_line r = c :: rest /\ is_digit c = true.
Proof.
  intros [n fs] Hn. cbn [fst] in Hn. unfold token_line. cbn [fst snd].
  unfold NumberToString.
  destruct (n <? 0) eqn:E; [apply Z.ltb_lt in E; lia|].
  fold (digits (Z.to_N n)).
  pose proof (digits_nonempty (Z.to_N n)) as Hne.
  pose proof (digits_are_digits (Z.to_N n)) as Hd.
  destruct (digits (Z.to_N n)) as [|c r]; [contradiction|].
  inversion Hd as [|? ? Hc _]. subst.
  destruct fs as [|f fs].
  - exists c, r. split; [reflexivity | exact Hc].
  - eexists c, _. split; [reflexivity | exact Hc].
Qed.

Lemma recognized_token_lines : forall rows,
  Forall token_ok rows -> recognized (map token_line rows) = [].
Proof.
  induction rows as [|r rows IH]; intros H; [reflexivity|].
  inversion H as [|? ? Hr Hrows]. subst.
  cbn [map recognized flat_map]. fold (recognized (map token_line rows)).
  rewrite (IH Hrows).
  destruct (token_line_starts_with_digit r (proj1 Hr)) as [c [rest [E Hc]]].
  rewrite E. cbn [startsWith].
  replace (N.eqb HASH c) with false; [reflexivity|].
  symmetry. apply N.eqb_neq. intros <-. discriminate Hc.
Qed.

Lemma fold_of_distinct_keys : forall kvs o,
  NoDup (map fst (o ++ kvs)) -> fold_left define kvs o = o ++ kvs.
Proof.
  induction kvs as [|[k v] kvs IH]; intros o H.
  - rewrite app_nil_r. reflexivity.
  - cbn [fold_left]. unfold define at 2. cbn [fst snd].
    rewrite map_app in H. cbn [map fst] in H.
    pose proof (NoDup_remove_2 _ _ _ H) as Hnotin.
    rewrite put_fresh
      by (intros Hin; apply Hnotin; apply in_or_app; left; exact Hin).
    rewrite IH.
    + rewrite <- app_assoc. reflexivity.
    + rewrite <- app_assoc. cbn [app]. rewrite map_app. exact H.
Qed.

Lemma token_line_fields : forall r,
  token_ok r ->
  split TAB (token_line r) = NumberToString (Int (fst r)) :: snd r.
Proof.
  intros [n fs] [Hn [_ Hfs]]. cbn [fst snd] in *. unfold token_line.
  cbn [fst snd]. apply split_join. constructor.
  - rewrite positive_to_string by exact Hn. apply digits_without. reflexivity.
  - eapply Forall_impl; [|exact Hfs]. intros f [_ [Ht _]]. exact Ht.
Qed.

Lemma token_line_without_break : forall r,
  token_ok r -> ~ In LF (token_line r).
Proof.
  intros [n fs] [Hn [_ Hfs]]. cbn [fst snd] in *. unfold token_line.
  cbn [fst snd]. rewrite positive_to_string by exact Hn.
  assert (Hd : ~ In LF (digits (Z.to_N n)))
    by (apply digits_without; reflexivity).
  revert Hd. generalize (digits (Z.to_N n)) as d.
  induction Hfs as [|f fs [_ [_ Hf]] _ IH]; intros d Hd.
  - exact Hd.
  - change (join [TAB] (d :: f :: fs)) with (d ++ TAB :: join [TAB] (f :: fs)).
    intros Hin. apply in_app_or in Hin. destruct Hin as [Hin|[Hin|Hin]].
    + exact (Hd Hin).
    + discriminate Hin.
    + exact (IH f Hf Hin).
Qed.

Lemma is_set_field : forall f, f <> [] -> Token.is_set (Str f) = true.
Proof.
  intros f H. unfold Token.is_set. cbn [strict_equal negb andb].
  apply negb_true_iff. apply str_eqb_false. exact H.
Qed.

(** A token line read by the Token setter and written back by the getter
    is the same line. *)
Lemma token_line_round_trip : forall r,
  token_ok r ->
  Token.get_serial (Token.set_serial (token_line r) Token.new) = token_line r.
Proof.
  intros r Hr. unfold Token.set_serial.
  rewrite (token_line_fields r Hr).
  destruct r as [n fs]. destruct Hr as [Hn [Hlen Hfs]]. cbn [fst snd] in *.
  rewrite number_of_digits by lia.
  assert (Ht : truthy (Int n) = true)
    by (cbn [truthy]; apply negb_true_iff, Z.eqb_neq; lia).
  rewrite Ht.
  destruct fs as [|f1 [|f2 [|f3 [|f4 [|f5 [|f6 [|f7 [|f8 [|f9 [|? ?]]]]]]]]]];
    try discriminate Hlen.
  repeat match goal with
         | H : Forall field_ok (_ :: _) |- _ =>
             let Hf := fresh "Hf" in
             let Hr := fresh "Hr" in
             inversion H as [|? ? Hf Hr]; clear H; subst;
             apply proj1 in Hf
         end.
  unfold array_get. cbn [nth_error]. unfold Token.get_serial.
  cbn [Token.id Token.form Token.lemma Token.upostag Token.xpostag
       Token.feats Token.head Token.deprel Token.deps Token.misc].
  rewrite !is_set_field by assumption.
  change (Token.is_set (Num (Int n))) with true.
  cbn [ToString]. unfold token_line. cbn [fst snd join].
  repeat rewrite <- app_assoc. reflexivity.
Qed.

Lemma token_pass_comments : forall lines kvs rest tokens ids,
  Sentence.token_pass lines (map metadata_line kvs ++ rest) tokens ids
  = Sentence.token_pass lines rest tokens ids.
Proof.
  intros lines kvs rest tokens ids. induction kvs as [|kv kvs IH];
    [reflexivity|].
  cbn [map app Sentence.token_pass].
  change (startsWith [HASH] (metadata_line kv)) with true.
  cbn [negb andb]. exact IH.
Qed.

Lemma token_pass_token_lines : forall lines rows rest tokens,
  Forall token_ok rows ->
  Sentence.token_pass lines (map token_line rows ++ rest) tokens []
  = Sentence.token_pass lines rest
      (tokens
       ++ map (fun r =>
                 Sentence.Tok (Token.set_serial (token_line r) Token.new))
            rows)
      [].
Proof.
  intros lines rows rest. induction rows as [|r rows IH]; intros tokens H.
  - cbn [map app]. rewrite app_nil_r. reflexivity.
  - inversion H as [|? ? Hr Hrows]. subst.
    cbn [map app Sentence.token_pass].
    destruct (token_line_starts_with_digit r (proj1 Hr)) as [c [tl [E Hc]]].
    assert (Hhash : startsWith [HASH] (token_line r) = false).
    { rewrite E. cbn [startsWith].
      replace (N.eqb HASH c) with false; [reflexivity|].
      symmetry. apply N.eqb_neq. intros <-. discriminate Hc. }
    assert (Hne : str_eqb (token_line r) [] = false).
    { apply str_eqb_false. rewrite E. discriminate. }
    rewrite Hhash, Hne. cbn [negb andb].
    unfold Sentence.first_field. rewrite (token_line_fields r Hr).
    assert (Hdash : includes DASH (NumberToString (Int (fst r))) = false).
    { rewrite positive_to_string by exact (proj1 Hr).
      apply not_true_is_false. intros Hin. unfold includes in Hin.
      apply existsb_exists in Hin. destruct Hin as [d [Hd Heq]].
      apply N.eqb_eq in Heq. subst d.
      exact (digits_without _ DASH eq_refl Hd). }
    rewrite Hdash. cbn [not_in_numbers existsb negb].
    rewrite (IH _ Hrows). rewrite <- app_assoc. reflexivity.
Qed.

Lemma serials_of_token_lines : forall rows,
  Forall token_ok rows ->
  Sentence.serials
    (map (fun r => Sentence.Tok (Token.set_serial (token_line r) Token.new))
         rows)
  = Normal (map token_line rows).
Proof.
  induction rows as [|r rows IH]; intros H; [reflexivity|].
  inversion H as [|? ? Hr Hrows]. subst.
  cbn [map Sentence.serials Sentence.entry_serial bind].
  rewrite (IH Hrows). cbn [bind].
  rewrite (token_line_round_trip r Hr). reflexivity.
Qed.

Lemma metadata_line_without_break : forall kv,
  comment_ok kv -> ~ In LF (metadata_line kv).
Proof.
  intros [k v] [Hk [Hv _]]. cbn [fst snd] in *.
  assert (H : no_line_terminator (metadata_line (k, v))).
  { unfold metadata_line. cbn [fst snd].
    apply Forall_app. split; [repeat constructor|].
    apply Forall_app. split; [exact Hk|].
    apply Forall_app. split; [repeat constructor | exact Hv]. }
  intros Hin. unfold no_line_terminator in H. rewrite Forall_forall in H.
  specialize (H LF Hin). discriminate H.
Qed.

Section WellFormedText.

Variable kvs : list (jsstring * jsstring).
Variable rows : list (Z * list jsstring).

Hypothesis comments_ok : Forall comment_ok kvs.
Hypothesis keys_distinct : NoDup (map fst kvs).
Hypothesis tokens_ok : Forall token_ok rows.

Lemma lines_of_well_formed_text :
  split LF (text (map metadata_line kvs ++ map token_line rows))
  = map metadata_line kvs ++ map token_line rows ++ [[]].
Proof.
  rewrite split_text, <- app_assoc; [reflexivity|].
  apply Forall_app. split; apply Forall_map.
  - eapply Forall_impl; [|exact comments_ok].
    apply metadata_line_without_break.
  - eapply Forall_impl; [|exact tokens_ok].
    apply token_line_without_break.
Qed.

Lemma metadata_of_well_formed_text :
  Sentence.metadata_pass
    (map metadata_line kvs ++ map token_line rows ++ [[]]) []
  = kvs.
Proof.
  rewrite metadata_pass_is_fold, !recognized_app.
  rewrite (recognized_comments kvs comments_ok).
  rewrite (recognized_token_lines rows tokens_ok).
  cbn [recognized flat_map startsWith app]. rewrite app_nil_r.
  rewrite fold_assign_define.
  - apply (fold_of_distinct_keys kvs []). exact keys_distinct.
  - eapply Forall_impl; [|exact comments_ok].
    intros kv [_ [_ [_ H]]]. exact H.
Qed.

Lemma tokens_of_well_formed_text :
  Sentence.token_pass
    (map metadata_line kvs ++ map token_line rows ++ [[]])
    (map metadata_line kvs ++ map token_line rows ++ [[]]) [] []
  = Normal
      (map (fun r => Sentence.Tok (Token.set_serial (token_line r) Token.new))
           rows).
Proof.
  rewrite token_pass_comments.
  rewrite (token_pass_token_lines _ rows [[]] [] tokens_ok).
  reflexivity.
Qed.

End WellFormedText.

(** C1, as the code has it: a text of comment lines [# key = value] with
    distinct ordinary keys, followed by token lines of ten non-empty
    fields whose first is a positive integer below 2^53 in decimal
    digits, every line ended by a line break, is parsed, and the parsed
    sentence serializes to the same text. *)
Theorem parse_then_serialize :
  forall (kvs : list (jsstring * jsstring)) (rows : list (Z * list jsstring))
         (this : Sentence.t),
    Forall comment_ok kvs ->
    NoDup (map fst kvs) ->
    Forall token_row_ok rows ->
    exists s : Sentence.t,
      Sentence.set_serial
        (text (map metadata_line kvs ++ map token_line rows)) this
      = Normal s
      /\ Sentence.get_serial s
         = Normal (text (map metadata_line kvs ++ map token_line rows)).
Proof.
  intros kvs rows this comments_ok keys_distinct rows_ok.
  assert (tokens_ok : Forall token_ok rows)
    by (eapply Forall_impl; [|exact rows_ok]; intros r [Hr _]; exact Hr).
  exists (Sentence.mk kvs
            (map (fun r => Sentence.Tok
                             (Token.set_serial (token_line r) Token.new))
                 rows)).
  split.
  - unfold Sentence.set_serial. cbn [Sentence.metadata Sentence.tokens].
    rewrite (lines_of_well_formed_text kvs rows comments_ok tokens_ok),
      (metadata_of_well_formed_text kvs rows comments_ok keys_distinct
         tokens_ok),
      (tokens_of_well_formed_text kvs rows tokens_ok).
    reflexivity.
  - unfold Sentence.get_serial. cbn [Sentence.metadata Sentence.tokens].
    rewrite (serials_of_token_lines rows tokens_ok). cbn [bind].
    rewrite entries_without_index_keys.
    + rewrite app_assoc, join_lines. do 3 f_equal.
      apply map_ext. intros [k v]. reflexivity.
    + eapply Forall_impl; [|exact comments_ok].
      intros kv [_ [_ [_ H]]]. exact (proj1 H).
Qed.

Lemma parse_then_serialize_witness :
  exists s : Sentence.t,
    Sentence.set_serial
      (text (map metadata_line
               [(lit "sent_id", lit "2"); (lit "text", lit "I am")]
             ++ map token_line
                  [(1, map lit ["I"; "I"; "PRON"; "PRP"; "_"; "2"; "nsubj";
                                "_"; "_"]%string);
                   (2, map lit ["am"; "be"; "AUX"; "VBP"; "_"; "0"; "root";
                                "_"; "_"]%string)]))
      Sentence.new
    = Normal s
    /\ Sentence.get_serial s
       = Normal
           (text (map metadata_line
                    [(lit "sent_id", lit "2"); (lit "text", lit "I am")]
                  ++ map token_line
                       [(1, map lit ["I"; "I"; "PRON"; "PRP"; "_"; "2";
                                     "nsubj"; "_"; "_"]%string);
                        (2, map lit ["am"; "be"; "AUX"; "VBP"; "_"; "0";
                                     "root"; "_"; "_"]%string)])).
Proof.
  apply parse_then_serialize.
  - each_element
      ltac:(split; [vm_compute; repeat constructor|];
            split; [vm_compute; repeat constructor|];
            split; [vm_compute; reflexivity|];
            split; [vm_compute; reflexivity | vm_compute; discriminate]).
  - all_distinct.
  - each_element
      ltac:(split; [|cbn [fst]; lia];
            split; [cbn [fst]; lia|]; split; [reflexivity|];
            vm_compute;
            each_element
              ltac:(split; [discriminate|];
                    split; cbn [In]; intuition discriminate)).
Defined.

(** C1 fails as stated: a sentence text that ends with its last token
    line, without a line break, comes back with one added. *)
Lemma serialize_adds_a_line_break :
  exists s : Sentence.t,
    Sentence.set_serial unterminated_line Sentence.new = Normal s
    /\ Sentence.get_serial s = Normal (unterminated_line ++ [LF])
    /\ Sentence.get_serial s <> Normal unterminated_line.
Proof.
  eexists. split; [vm_compute; reflexivity|].
  split; [vm_compute; reflexivity | vm_compute; discriminate].
Qed.

(* ================================================================== *)
(** ** Further facts about strings and numbers *)

Lemma split_nonempty : forall sep s, split sep s <> [].
Proof.
  intros sep [|c s]; cbn [split]; [discriminate|].
  destruct (N.eqb c sep); [discriminate|].
  destruct (split sep s); discriminate.
Qed.

(** [split] at a separator is [split] of the two sides. *)
Lemma split_app : forall sep a b,
  split sep (a ++ sep :: b) = split sep a ++ split sep b.
Proof.
  intros sep a b. induction a as [|c a IH].
  - cbn [app split]. rewrite N.eqb_refl. reflexivity.
  - cbn [app split]. destruct (N.eqb c sep); rewrite IH; [reflexivity|].
    pose proof (split_nonempty sep a) as Hne.
    destruct (split sep a); [contradiction | reflexivity].
Qed.

(** No piece of a [split] holds the separator. *)
Lemma split_pieces_free : forall sep s,
  Forall (fun f => ~ In sep f) (split sep s).
Proof.
  intros sep. induction s as [|c s IH].
  - constructor; [intros [] | constructor].
  - cbn [split]. destruct (N.eqb c sep) eqn:E.
    + constructor; [intros [] | exact IH].
    + destruct (split sep s) as [|f r]; inversion IH; subst.
      * constructor; [|constructor]. intros [H|[]].
        subst c. rewrite N.eqb_refl in E. discriminate E.
      * constructor; [|assumption]. intros [H|H]; [|contradiction].
        subst c. rewrite N.eqb_refl in E. discriminate E.
Qed.

Lemma split_join_any : forall sep fs f,
  Forall (fun g => ~ In sep g) (f :: fs) ->
  split sep (join [sep] (f :: fs)) = f :: fs.
Proof.
  intros sep. induction fs as [|g fs IH]; intros f H.
  - inversion H. subst. cbn [join]. apply split_no_sep. assumption.
  - inversion H as [|? ? Hf Hrest]. subst.
    change (join [sep] (f :: g :: fs)) with (f ++ sep :: join [sep] (g :: fs)).
    rewrite split_app_sep by exact Hf. rewrite (IH g Hrest). reflexivity.
Qed.

(** The text of a number is not empty, and holds no tab, line break or
    hash. *)
Lemma number_text_nonempty : forall n, NumberToString n <> [].
Proof.
  intros [z|]; [|discriminate]. unfold NumberToString.
  destruct (z <? 0); [discriminate|]. apply (digits_nonempty (Z.to_N z)).
Qed.

Lemma number_text_without : forall n c,
  is_digit c = false -> c <> DASH -> c <> 78%N -> c <> 97%N ->
  ~ In c (NumberToString n).
Proof.
  intros [z|] c Hd Hdash HN Ha Hin.
  - unfold NumberToString in Hin. destruct (z <? 0).
    + destruct Hin as [Hin|Hin]; [exact (Hdash (eq_sym Hin))|].
      exact (digits_without _ c Hd Hin).
    + exact (digits_without _ c Hd Hin).
  - cbn in Hin. destruct Hin as [Hin|[Hin|[Hin|[]]]];
      [exact (HN (eq_sym Hin)) | exact (Ha (eq_sym Hin))
      | exact (HN (eq_sym Hin))].
Qed.

Lemma trim_between : forall c s d,
  is_whitespace c = false -> is_whitespace d = false ->
  trim (c :: s ++ [d]) = c :: s ++ [d].
Proof.
  intros c s d Hc Hd. unfold trim. rewrite trim_left_id by exact Hc.
  change (c :: s ++ [d]) with ((c :: s) ++ [d]).
  rewrite rev_app_distr. cbn [rev app].
  rewrite trim_left_id by exact Hd.
  cbn [rev]. rewrite rev_app_distr, rev_involutive. reflexivity.
Qed.

(** [Number(String(n))] is [n] for every integer. *)
Lemma number_of_number_text : forall z,
  StringToNumber (NumberToString (Int z)) = Int z.
Proof.
  intros z. destruct (Z.ltb_spec z 0) as [Hneg|Hpos];
    [|apply number_of_digits; exact Hpos].
  unfold NumberToString. rewrite (proj2 (Z.ltb_lt z 0) Hneg).
  fold (digits (Z.to_N (- z))).
  pose proof (digits_nonempty (Z.to_N (- z))) as Hne.
  pose proof (digits_are_digits (Z.to_N (- z))) as Hd.
  unfold StringToNumber.
  destruct (exists_last Hne) as [s [d Hs]].
  assert (Hdd : is_digit d = true).
  { rewrite Hs in Hd. apply Forall_app in Hd. destruct Hd as [_ Hd].
    inversion Hd. assumption. }
  rewrite Hs.
  rewrite (trim_between DASH s d eq_refl (digit_is_not_whitespace d Hdd)).
  change (N.eqb DASH 45) with true. cbn iota.
  rewrite <- Hs. unfold unsigned_decimal.
  destruct (digits (Z.to_N (- z))) as [|c r] eqn:Ed; [contradiction|].
  rewrite <- Ed. unfold digits.
  rewrite chars_uint_chars, DecimalN.Unsigned.of_to.
  rewrite Z2N.id by lia. f_equal. lia.
Qed.
(* ================================================================== *)
(** ** Token: the columns of the serialized token *)

Lemma get_serial_outputs : forall x,
  Token.get_serial x = join [TAB] (outputs x).
Proof. intros x. reflexivity. Qed.

Lemma placeholder_without_tab : ~ In TAB Token.placeholder.
Proof. intros [H|[]]. discriminate H. Qed.

Lemma output_without_tab : forall guard v,
  ~ In TAB (ToString v) -> ~ In TAB (output guard v).
Proof.
  intros guard v H. unfold output.
  destruct (Token.is_set guard); [exact H | exact placeholder_without_tab].
Qed.

Lemma outputs_without_tab : forall x,
  tab_free x -> Forall (fun o => ~ In TAB o) (outputs x).
Proof.
  intros x H. unfold tab_free, token_fields in H.
  repeat match goal with
         | H : Forall _ (_ :: _) |- _ =>
             let Hv := fresh "Hv" in
             let Hr := fresh "Hr" in
             inversion H as [|? ? Hv Hr]; clear H; subst
         end.
  unfold outputs. each_element ltac:(apply output_without_tab; assumption).
Qed.

Lemma columns_are_outputs : forall x, tab_free x -> columns x = outputs x.
Proof.
  intros x H. unfold columns. rewrite get_serial_outputs.
  apply split_join. apply outputs_without_tab. exact H.
Qed.

(** C8, as the code has it: the serial of a token whose values hold no
    tab has ten columns, and a column shows the placeholder [_] exactly
    when the field its test reads is undefined or the empty string, and
    the text of its own field otherwise.  The test reads the field of the
    column, except for the form, whose test reads the identifier. *)
Theorem columns_follow_their_tests :
  forall x : Token.t,
    tab_free x ->
    length (columns x) = 10%nat
    /\ forall i, (i < 10)%nat ->
         nth i (columns x) []
         = if Token.is_set (field (tested i) x) then ToString (field i x)
           else Token.placeholder.
Proof.
  intros x H. rewrite (columns_are_outputs x H).
  split; [reflexivity|]. intros i Hi.
  assert (Hc : (i = 0 \/ i = 1 \/ i = 2 \/ i = 3 \/ i = 4 \/ i = 5 \/ i = 6
               \/ i = 7 \/ i = 8 \/ i = 9)%nat) by lia.
  repeat (destruct Hc as [Hc|Hc]); subst i; reflexivity.
Qed.

Lemma columns_follow_their_tests_witness :
  length (columns (bare Undefined (Str (lit "ab")))) = 10%nat
  /\ forall i, (i < 10)%nat ->
       nth i (columns (bare Undefined (Str (lit "ab")))) []
       = if Token.is_set (field (tested i) (bare Undefined (Str (lit "ab"))))
         then ToString (field i (bare Undefined (Str (lit "ab"))))
         else Token.placeholder.
Proof.
  apply (columns_follow_their_tests (bare Undefined (Str (lit "ab")))).
  each_element ltac:(vm_compute; intuition discriminate).
Defined.

(** C8 fails as stated: with the identifier 1, a form that is the empty
    string is written as the empty text, and a form that is undefined by
    its name, where the placeholder is claimed. *)
Lemma unset_form_is_not_a_placeholder :
  Token.form (Token.set_id (Num (Int 1)) Token.new) = Str []
  /\ Token.get_serial (Token.set_id (Num (Int 1)) Token.new)
     = row ["1"; ""; "_"; "_"; "_"; "_"; "_"; "_"; "_"; "_"]%string
  /\ nth 1 (columns (Token.set_id (Num (Int 1)) Token.new)) []
     <> Token.placeholder
  /\ Token.form (Token.set_serial (lit "1") Token.new) = Undefined
  /\ Token.get_serial (Token.set_serial (lit "1") Token.new)
     = row ["1"; "undefined"; "_"; "_"; "_"; "_"; "_"; "_"; "_"; "_"]%string
  /\ nth 1 (columns (Token.set_serial (lit "1") Token.new)) []
     <> Token.placeholder.
Proof.
  repeat split; try reflexivity; vm_compute; discriminate.
Qed.

(** X1: the serialized form of a token whose values hold no tab has
    exactly ten columns, and each column but the second shows the text of
    its own field when that field is set, and the placeholder [_] when it
    is undefined or the empty string. *)
Theorem columns_show_set_fields :
  forall x : Token.t,
    tab_free x ->
    length (columns x) = 10%nat
    /\ forall i, (i < 10)%nat -> i <> 1%nat ->
         nth i (columns x) []
         = if Token.is_set (field i x) then ToString (field i x)
           else Token.placeholder.
Proof.
  intros x H. rewrite (columns_are_outputs x H). split; [reflexivity|].
  intros i Hi Hne.
  assert (Hc : (i = 0 \/ i = 2 \/ i = 3 \/ i = 4 \/ i = 5 \/ i = 6
               \/ i = 7 \/ i = 8 \/ i = 9)%nat) by lia.
  repeat (destruct Hc as [Hc|Hc]); subst i; reflexivity.
Qed.

Lemma columns_show_set_fields_witness :
  length (columns (bare (Num (Int 1)) (Str (lit "ab")))) = 10%nat
  /\ forall i, (i < 10)%nat -> i <> 1%nat ->
       nth i (columns (bare (Num (Int 1)) (Str (lit "ab")))) []
       = if Token.is_set (field i (bare (Num (Int 1)) (Str (lit "ab"))))
         then ToString (field i (bare (Num (Int 1)) (Str (lit "ab"))))
         else Token.placeholder.
Proof.
  apply (columns_show_set_fields (bare (Num (Int 1)) (Str (lit "ab")))).
  each_element ltac:(vm_compute; intuition discriminate).
Defined.

(** X2: the second column follows the identifier, not the form: it is
    the text of the form whenever the identifier is set, and the
    placeholder whenever the identifier is unset, so that a token without
    identifier is written without its form. *)
Theorem form_column_follows_the_id :
  forall x : Token.t,
    tab_free x ->
    nth 1 (columns x) []
    = if Token.is_set (Token.id x) then ToString (Token.form x)
      else Token.placeholder.
Proof.
  intros x H. rewrite (columns_are_outputs x H). reflexivity.
Qed.

Lemma form_column_follows_the_id_witness :
  nth 1 (columns (bare Undefined (Str (lit "ab")))) [] = Token.placeholder.
Proof.
  apply (form_column_follows_the_id (bare Undefined (Str (lit "ab")))).
  each_element ltac:(vm_compute; intuition discriminate).
Defined.

(* ================================================================== *)
(** ** Token: reading a line and writing it back *)

Lemma value_text_without_tab : forall (fields : list jsstring) i,
  Forall (fun f => ~ In TAB f) fields ->
  ~ In TAB (ToString (array_get fields i)).
Proof.
  intros fields i H. unfold array_get.
  destruct (nth_error fields i) as [f|] eqn:E.
  - cbn [ToString]. rewrite Forall_forall in H. apply (H f).
    eapply nth_error_In. exact E.
  - vm_compute. intuition discriminate.
Qed.

(** What the setter stores has no tab in it. *)
Lemma parsed_token_is_tab_free : forall line this,
  tab_free (Token.set_serial line this).
Proof.
  intros line this. unfold tab_free, token_fields, Token.set_serial.
  cbn [Token.id Token.form Token.lemma Token.upostag Token.xpostag
       Token.feats Token.head Token.deprel Token.deps Token.misc].
  pose proof (split_pieces_free TAB line) as Hfree.
  constructor;
    [|each_element ltac:(apply value_text_without_tab; exact Hfree)].
  destruct (truthy _).
  - cbn [ToString]. apply number_text_without; [reflexivity | discriminate ..].
  - cbn [ToString]. destruct (split TAB line) as [|f r]; [intros []|].
    inversion Hfree. assumption.
Qed.

(** X3: whatever the number of fields of a line, the token read from it
    is written back with exactly ten columns. *)
Theorem parsed_token_has_ten_columns :
  forall (line : jsstring) (this : Token.t),
    length (columns (Token.set_serial line this)) = 10%nat.
Proof.
  intros line this.
  rewrite (columns_are_outputs _ (parsed_token_is_tab_free line this)).
  reflexivity.
Qed.

Lemma array_get_app : forall a b i,
  (i < length a)%nat -> array_get (a ++ b) i = array_get a i.
Proof.
  intros a b i H. unfold array_get. rewrite nth_error_app1 by exact H.
  reflexivity.
Qed.

(** X4: the setter reads ten fields and no more: what follows the tenth
    field of a line, tab included, leaves the token as it is. *)
Theorem fields_past_the_tenth_are_dropped :
  forall (line extra : jsstring) (this : Token.t),
    (10 <= length (split TAB line))%nat ->
    Token.set_serial (line ++ TAB :: extra) this
    = Token.set_serial line this.
Proof.
  intros line extra this H. unfold Token.set_serial. rewrite split_app.
  pose proof (split_nonempty TAB line) as Hne.
  rewrite !array_get_app by lia.
  destruct (split TAB line) as [|f r]; [contradiction | reflexivity].
Qed.

Lemma fields_past_the_tenth_are_dropped_witness :
  Token.set_serial
    (row ["1"; "I"; "I"; "PRON"; "PRP"; "_"; "2"; "nsubj"; "_"; "_"]%string
     ++ TAB :: lit "more")
    Token.new
  = Token.set_serial
      (row ["1"; "I"; "I"; "PRON"; "PRP"; "_"; "2"; "nsubj"; "_"; "_"]%string)
      Token.new.
Proof.
  apply fields_past_the_tenth_are_dropped. vm_compute. lia.
Defined.


Lemma is_set_text : forall g, Token.is_set (Str g) = negb (str_eqb g []).
Proof. intros g. reflexivity. Qed.

Lemma output_nonempty : forall v, output v v <> [].
Proof.
  intros v. unfold output. destruct (Token.is_set v) eqn:E;
    [|discriminate].
  destruct v as [|n|g]; [discriminate E | apply number_text_nonempty|].
  rewrite is_set_text in E. apply negb_true_iff, str_eqb_false in E.
  exact E.
Qed.

(** A column that is read back and written again is the same column. *)
Lemma output_stable : forall v,
  output (Str (output v v)) (Str (output v v)) = output v v.
Proof.
  intros v. unfold output at 1. rewrite is_set_text.
  pose proof (output_nonempty v) as Hne. apply str_eqb_false in Hne.
  rewrite Hne. reflexivity.
Qed.

(** The identifier the setter makes of the first column of a token it
    has read before is set, and is written as that column. *)
Lemma reread_id : forall line this,
  let o0 := output (Token.id (Token.set_serial line this))
                   (Token.id (Token.set_serial line this)) in
  let id' := if truthy (StringToNumber o0) then Num (StringToNumber o0)
             else Str o0 in
  Token.is_set id' = true /\ output id' id' = o0.
Proof.
  intros line this. unfold Token.set_serial. cbn [Token.id].
  set (f0 := match split TAB line with f :: _ => f | [] => [] end).
  destruct (truthy (StringToNumber f0)) eqn:Et.
  - destruct (StringToNumber f0) as [z|] eqn:En; [|discriminate Et].
    cbn zeta.
    change (output (Num (Int z)) (Num (Int z)))
      with (NumberToString (Int z)).
    rewrite number_of_number_text, Et. split; reflexivity.
  - cbn zeta. destruct f0 as [|c r] eqn:Ef.
    + change (output (Str []) (Str [])) with Token.placeholder.
      split; reflexivity.
    + change (output (Str (c :: r)) (Str (c :: r))) with (c :: r).
      rewrite Et. split; reflexivity.
Qed.

(** X5: writing a token that was read from a line, reading what was
    written and writing it again gives the same text: one passage through
    the setter and the getter brings a token line to a form that further
    passages leave alone. *)
Theorem rewriting_a_token_line_is_stable :
  forall (line : jsstring) (t1 t2 : Token.t),
    Token.get_serial
      (Token.set_serial (Token.get_serial (Token.set_serial line t1)) t2)
    = Token.get_serial (Token.set_serial line t1).
Proof.
  intros line t1 t2.
  pose proof (outputs_without_tab _ (parsed_token_is_tab_free line t1))
    as Hfree.
  destruct (reread_id line t1) as [Hset Hid].
  set (x := Token.set_serial line t1) in *.
  rewrite (get_serial_outputs x). unfold outputs in Hfree |- *.
  unfold Token.set_serial at 1. unfold jsstring in *.
  rewrite (split_join _ _ Hfree).
  rewrite get_serial_outputs. f_equal. unfold outputs.
  cbn [Token.id Token.form Token.lemma Token.upostag Token.xpostag
       Token.feats Token.head Token.deprel Token.deps Token.misc
       array_get nth_error].
  rewrite Hid. unfold output at 2. rewrite Hset. cbn [ToString].
  rewrite !output_stable. reflexivity.
Qed.

(** X6: a token whose identifier is a non-zero integer, whose form is a
    text and whose eight other fields are non-empty texts, all without
    tab, is read back from its serialized form as it was. *)
Theorem token_survives_its_serial :
  forall (x this : Token.t) (z : Z),
    Token.id x = Num (Int z) ->
    z <> 0 ->
    text_value (Token.form x) ->
    Forall filled_value
      [Token.lemma x; Token.upostag x; Token.xpostag x; Token.feats x;
       Token.head x; Token.deprel x; Token.deps x; Token.misc x] ->
    Token.set_serial (Token.get_serial x) this = x.
Proof.
  intros x this z Hid Hz [f [Hf Hft]] Hrest.
  destruct x as [i fo le up xp fe he dr dp mi].
  cbn [Token.id Token.form Token.lemma Token.upostag Token.xpostag
       Token.feats Token.head Token.deprel Token.deps Token.misc] in *.
  subst i fo.
  repeat match goal with
         | H : Forall filled_value (_ :: _) |- _ =>
             let g := fresh "g" in
             let Hv := fresh "Hv" in
             let Hn := fresh "Hn" in
             let Ht := fresh "Ht" in
             let Hr := fresh "Hr" in
             inversion H as [|? ? [g [Hv [Hn Ht]]] Hr]; clear H; subst
         end.
  rewrite get_serial_outputs. unfold outputs.
  cbn [Token.id Token.form Token.lemma Token.upostag Token.xpostag
       Token.feats Token.head Token.deprel Token.deps Token.misc].
  unfold output. change (Token.is_set (Num (Int z))) with true.
  rewrite !is_set_field by assumption. cbn [ToString].
  unfold Token.set_serial. rewrite split_join.
  - cbn [array_get nth_error]. rewrite number_of_number_text.
    replace (truthy (Int z)) with true; [reflexivity|].
    symmetry. cbn [truthy]. apply negb_true_iff, Z.eqb_neq. exact Hz.
  - constructor;
      [apply number_text_without; [reflexivity | discriminate ..]|].
    each_element ltac:(assumption).
Qed.

Lemma token_survives_its_serial_witness :
  Token.set_serial
    (Token.get_serial
       (Token.mk (Num (Int 3)) (Str (lit "not")) (Str (lit "not"))
          (Str (lit "PART")) (Str (lit "RB")) (Str (lit "_"))
          (Str (lit "2")) (Str (lit "neg")) (Str (lit "_"))
          (Str (lit "_"))))
    Token.new
  = Token.mk (Num (Int 3)) (Str (lit "not")) (Str (lit "not"))
      (Str (lit "PART")) (Str (lit "RB")) (Str (lit "_"))
      (Str (lit "2")) (Str (lit "neg")) (Str (lit "_")) (Str (lit "_")).
Proof.
  apply (token_survives_its_serial _ Token.new 3).
  - reflexivity.
  - lia.
  - eexists. split; [reflexivity | vm_compute; intuition discriminate].
  - each_element
      ltac:(eexists; split; [reflexivity|];
            split; [discriminate | vm_compute; intuition discriminate]).
Defined.


(* ================================================================== *)
(** ** Sentence: what the edits leave alone, and when they fail *)








(** X8: [expand] only ever splits a standalone token: when every
    standalone token has another identifier, the sentence comes back as
    it was, even if a group has the identifier asked for. *)
Theorem expand_leaves_groups_alone :
  forall (s : Sentence.t) (token_id : value) (index : Z),
    Forall (passed_by_expand token_id) (Sentence.tokens s) ->
    Sentence.expand token_id index s = Normal s.
Proof.
  intros [md ts] token_id index H. cbn [Sentence.tokens] in H.
  apply expand_without_match. exact H.
Qed.

Lemma expand_leaves_groups_alone_witness :
  Sentence.expand (Str (lit "1-2")) 1
    (Sentence.mk []
       [Sentence.Mwt ab_group;
        Sentence.Tok (bare (Num (Int 3)) (Str (lit "c")))])
  = Normal
      (Sentence.mk []
         [Sentence.Mwt ab_group;
          Sentence.Tok (bare (Num (Int 3)) (Str (lit "c")))]).
Proof.
  apply expand_leaves_groups_alone.
  each_element ltac:(cbn [passed_by_expand]; try reflexivity; discriminate).
Defined.

(** X9: [expand] takes the two halves with [form.slice], so it throws a
    TypeError at a token that has the identifier asked for and whose form
    is not a string, as that of a token read from a line of one field. *)
Theorem expand_throws_without_a_form :
  forall (md : object) (pre post : list Sentence.Entry) (x : Token.t)
         (token_id : value) (index : Z),
    Forall (passed_by_expand token_id) pre ->
    strict_equal (Token.id x) token_id = true ->
    (forall f, Token.form x <> Str f) ->
    Sentence.expand token_id index
      (Sentence.mk md (pre ++ Sentence.Tok x :: post))
    = Throw TypeError.
Proof.
  intros md pre post x token_id index Hpre Hid Hform.
  unfold Sentence.expand. cbn [Sentence.tokens Sentence.metadata].
  rewrite (expand_loop_prefix token_id index pre _ Hpre).
  cbn [Sentence.expand_loop Sentence.entry_id bind Sentence.is_mwt negb].
  rewrite Hid. cbn [andb].
  destruct (Token.form x) as [| |f] eqn:Ef; try reflexivity.
  exfalso. exact (Hform f eq_refl).
Qed.

Lemma expand_throws_without_a_form_witness :
  Sentence.expand (Num (Int 1)) 1
    (Sentence.mk []
       ([] ++ Sentence.Tok (Token.set_serial (lit "1") Token.new) :: []))
  = Throw TypeError.
Proof.
  apply expand_throws_without_a_form.
  - constructor.
  - reflexivity.
  - intros f. discriminate.
Defined.






(* ================================================================== *)
(** ** Sentence: what the setter makes of the lines *)

Lemma set_serial_by_lines : forall arg this,
  Sentence.set_serial arg this = parse_lines (split LF arg).
Proof. intros arg this. reflexivity. Qed.

Lemma token_pass_plain_lines : forall lines ls tokens,
  Forall (fun l => is_range_line l = false) ls ->
  Sentence.token_pass lines ls tokens []
  = Normal
      (tokens
       ++ map (fun l => Sentence.Tok (Token.set_serial l Token.new))
            (filter is_token_line ls)).
Proof.
  intros lines ls. induction ls as [|l ls IH]; intros tokens H.
  - cbn [Sentence.token_pass filter map]. rewrite app_nil_r. reflexivity.
  - inversion H as [|? ? Hl Hls]. subst.
    cbn [Sentence.token_pass filter]. unfold is_range_line in Hl.
    fold (is_token_line l). destruct (is_token_line l).
    + cbn [andb] in Hl. rewrite Hl. cbn [not_in_numbers existsb negb].
      rewrite (IH _ Hls). cbn [map]. rewrite <- app_assoc. reflexivity.
    + exact (IH _ Hls).
Qed.

(** X11: a text without range line is always parsed, and the sentence
    holds one standalone token for every line that is neither a comment
    nor empty, in the order of the lines, each read by the Token setter
    from its line alone. *)
Theorem text_without_range_parses_line_by_line :
  forall (arg : jsstring) (this : Sentence.t),
    Forall (fun l => is_range_line l = false) (split LF arg) ->
    Sentence.set_serial arg this
    = Normal
        (Sentence.mk
           (fold_left assign (recognized (split LF arg)) [])
           (map (fun l => Sentence.Tok (Token.set_serial l Token.new))
                (filter is_token_line (split LF arg)))).
Proof.
  intros arg this H. rewrite set_serial_by_lines. unfold parse_lines.
  rewrite (token_pass_plain_lines _ _ [] H). cbn [bind app].
  rewrite metadata_pass_is_fold. reflexivity.
Qed.

Lemma text_without_range_parses_line_by_line_witness :
  Sentence.set_serial
    (text [lit "# sent_id = 2"; row ["1"; "I"]; []; row ["2"; "am"]]%string)
    Sentence.new
  = Normal
      (Sentence.mk [(lit "sent_id", lit "2")]
         [Sentence.Tok (bare (Num (Int 1)) (Str (lit "I")));
          Sentence.Tok (bare (Num (Int 2)) (Str (lit "am")))]).
Proof.
  rewrite (text_without_range_parses_line_by_line
             (text [lit "# sent_id = 2"; row ["1"; "I"]; [];
                    row ["2"; "am"]]%string)
             Sentence.new).
  - vm_compute. reflexivity.
  - vm_compute. each_element ltac:(reflexivity).
Defined.

(* ================================================================== *)
(** ** Sentence: lines that leave no trace *)

Lemma lines_of_join : forall ls : list jsstring,
  Forall (fun l => ~ In LF l) ls ->
  split LF (join [LF] ls) = match ls with [] => [[]] | _ => ls end.
Proof.
  intros [|l ls] H; [reflexivity|]. apply split_join_any. exact H.
Qed.

Lemma filter_keeps_free : forall (keep : jsstring -> bool) arg,
  Forall (fun l : jsstring => ~ In LF l) (filter keep (split LF arg)).
Proof.
  intros keep arg. apply Forall_forall. intros l Hin.
  apply filter_In in Hin. destruct Hin as [Hin _].
  exact (proj1 (Forall_forall _ _) (split_pieces_free LF arg) l Hin).
Qed.

(** The first field of a comment or of an empty line is the text of no
    number. *)
Lemma first_field_of_skipped : forall l n,
  is_token_line l = false ->
  str_eqb (NumberToString n) (Sentence.first_field l) = false.
Proof.
  intros l n H. apply str_eqb_false. intros E.
  destruct l as [|c r].
  - cbn in E. exact (number_text_nonempty n E).
  - unfold is_token_line in H.
    replace (str_eqb (c :: r) []) with false in H
      by (symmetry; apply str_eqb_false; discriminate).
    cbn [negb andb startsWith] in H. rewrite andb_true_r in H.
    apply negb_false_iff in H. rewrite andb_true_r in H.
    apply N.eqb_eq in H. subst c.
    assert (Hin : In HASH (NumberToString n)).
    { rewrite E. unfold Sentence.first_field. cbn [split].
      change (N.eqb HASH TAB) with false. cbn iota.
      destruct (split TAB r); left; reflexivity. }
    revert Hin. apply number_text_without;
      [reflexivity | discriminate | discriminate | discriminate].
Qed.

Lemma skipped_line_adds_nothing : forall l nums,
  is_token_line l = false ->
  concat
    (map (fun sx =>
            if str_eqb sx (Sentence.first_field l) then l ++ [LF] else [])
         (map NumberToString nums))
  = [].
Proof.
  intros l nums H. induction nums as [|n nums IH]; [reflexivity|].
  cbn [map concat]. rewrite (first_field_of_skipped l n H). exact IH.
Qed.

Section Filter.

Variable keep : jsstring -> bool.
Hypothesis dropped_are_skipped :
  forall l, keep l = false -> is_token_line l = false.

Lemma mwtString_filter : forall lines line nums,
  Sentence.mwtString (filter keep lines) line (map NumberToString nums)
  = Sentence.mwtString lines line (map NumberToString nums).
Proof.
  intros lines line nums. unfold Sentence.mwtString.
  assert (E : forall ls : list jsstring,
    concat
      (map (fun l =>
              concat
                (map (fun sx =>
                        if str_eqb sx (Sentence.first_field l)
                        then l ++ [LF] else [])
                     (map NumberToString nums)))
           (filter keep ls))
    = concat
        (map (fun l =>
                concat
                  (map (fun sx =>
                          if str_eqb sx (Sentence.first_field l)
                          then l ++ [LF] else [])
                       (map NumberToString nums)))
             ls)).
  { induction ls as [|l ls IH]; [reflexivity|].
    cbn [filter]. destruct (keep l) eqn:K; cbn [map concat].
    - rewrite IH. reflexivity.
    - rewrite IH.
      rewrite (skipped_line_adds_nothing l nums (dropped_are_skipped l K)).
      reflexivity. }
  rewrite E. reflexivity.
Qed.

Lemma token_pass_filter : forall lines ls tokens ids,
  Sentence.token_pass (filter keep lines) (filter keep ls) tokens ids
  = Sentence.token_pass lines ls tokens ids.
Proof.
  intros lines ls. induction ls as [|l ls IH]; intros tokens ids;
    [reflexivity|].
  cbn [filter]. destruct (keep l) eqn:K.
  - cbn [Sentence.token_pass].
    destruct (negb (startsWith [HASH] l) && negb (str_eqb l []));
      [|apply IH].
    destruct (includes DASH (Sentence.first_field l)).
    + destruct (Range.bounds (Sentence.first_field l)) as [first last].
      rewrite mwtString_filter.
      destruct (MultiwordToken.set_serial
                  (Sentence.mwtString lines l
                     (map NumberToString (Range.span first last)))
                  MultiwordToken.new); cbn [bind];
        [apply IH | reflexivity].
    + destruct (not_in_numbers
                  (StringToNumber (Sentence.first_field l)) ids);
        apply IH.
  - rewrite IH. cbn [Sentence.token_pass].
    change (negb (startsWith [HASH] l) && negb (str_eqb l []))
      with (is_token_line l).
    rewrite (dropped_are_skipped l K). reflexivity.
Qed.

End Filter.

Lemma ignored_line_is_skipped : forall l,
  is_ignored_line l = true -> is_token_line l = false.
Proof.
  intros l H. unfold is_ignored_line in H. unfold is_token_line.
  destruct (str_eqb l []); [apply andb_false_r|].
  cbn [orb] in H. apply andb_true_iff in H. destruct H as [H _].
  rewrite H. reflexivity.
Qed.

Lemma recognized_without_ignored : forall lines,
  recognized (filter (fun l => negb (is_ignored_line l)) lines)
  = recognized lines.
Proof.
  induction lines as [|l lines IH]; [reflexivity|].
  cbn [filter]. destruct (is_ignored_line l) eqn:K; cbn [negb].
  - rewrite IH. unfold recognized at 2. cbn [flat_map].
    fold (recognized lines). unfold is_ignored_line in K.
    destruct (str_eqb l []) eqn:El.
    + apply str_eqb_true in El. subst l. reflexivity.
    + cbn [orb] in K. apply andb_true_iff in K. destruct K as [Hs Hm].
      rewrite Hs.
      destruct (Sentence.metadataRegex_exec l); [discriminate Hm|].
      reflexivity.
  - unfold recognized. cbn [flat_map]. fold (recognized lines).
    fold (recognized (filter (fun l => negb (is_ignored_line l)) lines)).
    rewrite IH. reflexivity.
Qed.

Lemma parse_without_ignored : forall lines,
  parse_lines (filter (fun l => negb (is_ignored_line l)) lines)
  = parse_lines lines.
Proof.
  intros lines. unfold parse_lines.
  rewrite token_pass_filter.
  - rewrite !metadata_pass_is_fold, recognized_without_ignored.
    reflexivity.
  - intros l K. apply negb_false_iff in K.
    exact (ignored_line_is_skipped l K).
Qed.

(** X12: empty lines and comment lines in which no key and value are
    recognized leave no trace: the text without them is parsed to the same
    sentence, or fails with the same error. *)
Theorem ignored_lines_leave_no_trace :
  forall (arg : jsstring) (this : Sentence.t),
    Sentence.set_serial
      (join [LF]
         (filter (fun l => negb (is_ignored_line l)) (split LF arg)))
      this
    = Sentence.set_serial arg this.
Proof.
  intros arg this. rewrite !set_serial_by_lines.
  rewrite lines_of_join by apply filter_keeps_free.
  rewrite <- (parse_without_ignored (split LF arg)).
  destruct (filter (fun l => negb (is_ignored_line l)) (split LF arg));
    reflexivity.
Qed.

Lemma tokens_without_comments : forall lines,
  tokens_of (parse_lines (filter (fun l => negb (startsWith [HASH] l)) lines))
  = tokens_of (parse_lines lines).
Proof.
  intros lines. unfold parse_lines, tokens_of.
  rewrite token_pass_filter.
  - destruct (Sentence.token_pass lines lines [] []); reflexivity.
  - intros l K. apply negb_false_iff in K. unfold is_token_line.
    rewrite K. reflexivity.
Qed.

(** X13: the tokens of a sentence do not depend on the comment lines of
    its text: the text without its comment lines is parsed to the same
    tokens, or fails with the same error. *)
Theorem comments_do_not_reach_the_tokens :
  forall (arg : jsstring) (this : Sentence.t),
    tokens_of
      (Sentence.set_serial
         (join [LF]
            (filter (fun l => negb (startsWith [HASH] l)) (split LF arg)))
         this)
    = tokens_of (Sentence.set_serial arg this).
Proof.
  intros arg this. rewrite !set_serial_by_lines.
  rewrite lines_of_join by apply filter_keeps_free.
  rewrite <- (tokens_without_comments (split LF arg)).
  destruct (filter (fun l => negb (startsWith [HASH] l)) (split LF arg));
    reflexivity.
Qed.

(* ================================================================== *)
(** ** Sentence: a parsed sentence holds no group *)

(** X14: whatever the text, the sentence the setter builds holds tokens
    only, so [collapse] leaves it as it is for every identifier, and its
    serial is always defined. *)
Theorem parsed_sentence_has_no_group :
  forall (T : jsstring) (this s : Sentence.t),
    Sentence.set_serial T this = Normal s ->
    Forall is_tok (Sentence.tokens s)
    /\ (forall token_id, Sentence.collapse token_id s = Normal s)
    /\ exists out, Sentence.get_serial s = Normal out.
Proof.
  intros T this s H.
  pose proof (set_serial_gives_tokens_only T this s H) as Htok.
  split; [exact Htok|]. split.
  - intros token_id. destruct s as [md ts]. apply collapse_without_match.
    cbn [Sentence.tokens] in Htok.
    eapply Forall_impl; [|exact Htok].
    intros [x|m] He; [exact I | contradiction].
  - destruct (serials_of_tokens _ Htok) as [ls Hls].
    unfold Sentence.get_serial. rewrite Hls. cbn [bind].
    eexists. reflexivity.
Qed.

Lemma parsed_sentence_has_no_group_witness :
  Sentence.set_serial havent_block Sentence.new = Normal havent_children
  /\ Forall is_tok (Sentence.tokens havent_children)
  /\ (forall token_id,
        Sentence.collapse token_id havent_children = Normal havent_children)
  /\ exists out, Sentence.get_serial havent_children = Normal out.
Proof.
  split; [vm_compute; reflexivity|].
  apply (parsed_sentence_has_no_group havent_block Sentence.new).
  vm_compute. reflexivity.
Defined.

(* ================================================================== *)
(** ** Sentence: a comment line read, written and read again *)

Lemma last_separator_none_inv : forall r,
  Sentence.last_separator r = None -> occurs (lit " = ") r = false.
Proof.
  induction r as [|c r IH]; intros H; [reflexivity|].
  rewrite last_separator_cons in H.
  destruct (Sentence.last_separator r) as [[k v]|]; [discriminate H|].
  destruct (startsWith (lit " = ") (c :: r)) eqn:S; [discriminate H|].
  cbn [occurs]. rewrite S, (IH eq_refl). reflexivity.
Qed.

(** What the two groups of a match are: the sides of the last separator
    of the text. *)
Lemma last_separator_sides : forall r k v,
  Sentence.last_separator r = Some (k, v) ->
  r = k ++ lit " = " ++ v /\ occurs (lit " = ") (32%N :: v) = false.
Proof.
  induction r as [|c r IH]; intros k v H; [discriminate H|].
  rewrite last_separator_cons in H.
  destruct (Sentence.last_separator r) as [[k' v']|] eqn:E.
  - injection H as <- <-. destruct (IH k' v' eq_refl) as [Hr Hv].
    split; [rewrite Hr at 1; reflexivity | exact Hv].
  - destruct (startsWith (lit " = ") (c :: r)) eqn:S; [|discriminate H].
    injection H as <- <-.
    apply last_separator_none_inv in E.
    change (lit " = ") with [32%N; 61%N; 32%N] in *.
    destruct r as [|c2 [|c3 r]]; cbn [startsWith] in S;
      try (rewrite ?andb_false_r in S; discriminate S).
    apply andb_true_iff in S. destruct S as [S1 S].
    apply andb_true_iff in S. destruct S as [S2 S].
    apply andb_true_iff in S. destruct S as [S3 _].
    apply N.eqb_eq in S1, S2, S3. subst c c2 c3.
    cbn [skipn app]. split; [reflexivity|].
    cbn [occurs] in E. apply orb_false_iff in E. exact (proj2 E).
Qed.

Lemma dot_star_free : forall s, no_line_terminator (Sentence.dot_star s).
Proof.
  induction s as [|c s IH]; [constructor|].
  cbn [Sentence.dot_star].
  destruct (Sentence.is_line_terminator c) eqn:E; constructor; assumption.
Qed.

Lemma exec_groups : forall line k v,
  Sentence.metadataRegex_exec line = Some (k, v) ->
  no_line_terminator k /\ no_line_terminator v
  /\ occurs (lit " = ") (32%N :: v) = false.
Proof.
  induction line as [|c line IH]; intros k v H; [discriminate H|].
  cbn [Sentence.metadataRegex_exec] in H.
  destruct (startsWith (lit "# ") (c :: line)); [|exact (IH k v H)].
  destruct (Sentence.last_separator
              (Sentence.dot_star (skipn 2 (c :: line))))
    as [[k' v']|] eqn:E; [|exact (IH k v H)].
  injection H as <- <-.
  destruct (last_separator_sides _ _ _ E) as [Hr Hv].
  pose proof (dot_star_free (skipn 2 (c :: line))) as Hfree.
  rewrite Hr in Hfree. apply Forall_app in Hfree.
  destruct Hfree as [Hk Hfree]. apply Forall_app in Hfree.
  destruct Hfree as [_ Hv'].
  split; [exact Hk|]. split; [exact Hv' | exact Hv].
Qed.

Lemma exec_written_line : forall k v,
  no_line_terminator k -> no_line_terminator v ->
  occurs (lit " = ") (32%N :: v) = false ->
  Sentence.metadataRegex_exec (metadata_line (k, v)) = Some (k, v).
Proof.
  intros k v Hk Hv Hsep. unfold metadata_line. cbn [fst snd].
  change (lit "# " ++ k ++ lit " = " ++ v)
    with (35%N :: 32%N :: k ++ lit " = " ++ v).
  cbn [Sentence.metadataRegex_exec].
  change (startsWith (lit "# ") (35%N :: 32%N :: k ++ lit " = " ++ v))
    with true.
  cbn [skipn]. rewrite dot_star_id.
  - rewrite (last_separator_found k v Hsep). reflexivity.
  - apply Forall_app. split; [exact Hk|].
    apply Forall_app. split; [|exact Hv].
    repeat constructor.
Qed.

(** X15: the key and value the setter recognizes in a line are recognized
    again, the same, in the comment line the getter writes for them. *)
Theorem written_comment_is_read_back :
  forall (line k v : jsstring),
    Sentence.metadataRegex_exec line = Some (k, v) ->
    Sentence.metadataRegex_exec (lit "# " ++ k ++ lit " = " ++ v)
    = Some (k, v).
Proof.
  intros line k v H. destruct (exec_groups line k v H) as [Hk [Hv Hsep]].
  exact (exec_written_line k v Hk Hv Hsep).
Qed.

Lemma written_comment_is_read_back_witness :
  Sentence.metadataRegex_exec (lit "# " ++ lit "a = b" ++ lit " = " ++ lit "c")
  = Some (lit "a = b", lit "c").
Proof.
  apply (written_comment_is_read_back (lit "## a = b = c")).
  vm_compute. reflexivity.
Defined.


(* ================================================================== *)
(** ** Sentence: writing a sentence and reading it back *)

Lemma plain_token_row : forall x,
  plain_token (Sentence.Tok x) ->
  token_ok (row_of x)
  /\ Token.set_serial (token_line (row_of x)) Token.new = x.
Proof.
  intros [i fo le up xp fe he dr dp mi] [[z [Hid Hz]] Hf].
  cbn [Token.id Token.form Token.lemma Token.upostag Token.xpostag
       Token.feats Token.head Token.deprel Token.deps Token.misc] in *.
  subst i.
  repeat match goal with
         | H : Forall line_value (_ :: _) |- _ =>
             let g := fresh "g" in
             let Hv := fresh "Hv" in
             let Hg := fresh "Hg" in
             let Hr := fresh "Hr" in
             inversion H as [|? ? [g [Hv Hg]] Hr]; clear H; subst
         end.
  assert (Hok : token_ok
                  (row_of
                     (Token.mk (Num (Int z)) (Str g) (Str g0) (Str g1)
                        (Str g2) (Str g3) (Str g4) (Str g5) (Str g6)
                        (Str g7)))).
  { split; [exact Hz|]. split; [reflexivity|].
    cbn [row_of snd map ToString Token.form Token.lemma Token.upostag
         Token.xpostag Token.feats Token.head Token.deprel Token.deps
         Token.misc].
    each_element ltac:(assumption). }
  split; [exact Hok|].
  unfold Token.set_serial. rewrite (token_line_fields _ Hok).
  cbn [row_of fst snd map ToString Token.id Token.form Token.lemma
       Token.upostag Token.xpostag Token.feats Token.head Token.deprel
       Token.deps Token.misc].
  rewrite number_of_digits by lia.
  replace (truthy (Int z)) with true
    by (symmetry; cbn [truthy]; apply negb_true_iff, Z.eqb_neq; lia).
  reflexivity.
Qed.

Lemma plain_tokens_rows : forall ts,
  Forall plain_token ts ->
  exists rows,
    Forall token_ok rows
    /\ map (fun r => Sentence.Tok (Token.set_serial (token_line r) Token.new))
         rows
       = ts.
Proof.
  induction ts as [|e ts IH]; intros H.
  - exists []. split; [constructor | reflexivity].
  - inversion H as [|? ? He Hts]. subst.
    destruct (IH Hts) as [rows [Hrows Hmap]].
    destruct e as [x|m]; [|contradiction].
    destruct (plain_token_row x He) as [Hok Hx].
    exists (row_of x :: rows). split; [constructor; assumption|].
    cbn [map]. rewrite Hx, Hmap. reflexivity.
Qed.

(** X16: a sentence of standalone tokens with positive integer
    identifiers and nine further fields that are non-empty texts without
    tab or line break, whose metadata has distinct ordinary keys and
    values that read back, is serialized, and parsing its serial gives the
    sentence itself. *)
Theorem sentence_survives_its_serial :
  forall s this : Sentence.t,
    Forall comment_ok (Sentence.metadata s) ->
    NoDup (map fst (Sentence.metadata s)) ->
    Forall plain_token (Sentence.tokens s) ->
    exists out,
      Sentence.get_serial s = Normal out
      /\ Sentence.set_serial out this = Normal s.
Proof.
  intros [kvs ts] this Hc Hnd Ht.
  cbn [Sentence.metadata Sentence.tokens] in *.
  destruct (plain_tokens_rows ts Ht) as [rows [Hrows Hmap]].
  exists (text (map metadata_line kvs ++ map token_line rows)). split.
  - unfold Sentence.get_serial. cbn [Sentence.metadata Sentence.tokens].
    rewrite <- Hmap, (serials_of_token_lines rows Hrows). cbn [bind].
    rewrite entries_without_index_keys.
    + rewrite app_assoc, join_lines. do 3 f_equal.
      apply map_ext. intros [k v]. reflexivity.
    + eapply Forall_impl; [|exact Hc].
      intros kv [_ [_ [_ H]]]. exact (proj1 H).
  - unfold Sentence.set_serial. cbn [Sentence.metadata Sentence.tokens].
    rewrite (lines_of_well_formed_text kvs rows Hc Hrows).
    rewrite (metadata_of_well_formed_text kvs rows Hc Hnd Hrows).
    rewrite (tokens_of_well_formed_text kvs rows Hrows).
    cbn [bind]. rewrite Hmap. reflexivity.
Qed.

Lemma sentence_survives_its_serial_witness :
  exists out,
    Sentence.get_serial i_am_sentence = Normal out
    /\ Sentence.set_serial out Sentence.new = Normal i_am_sentence.
Proof.
  apply sentence_survives_its_serial.
  - each_element
      ltac:(split; [vm_compute; repeat constructor|];
            split; [vm_compute; repeat constructor|];
            split; [vm_compute; reflexivity|];
            split; [vm_compute; reflexivity | vm_compute; discriminate]).
  - all_distinct.
  - each_element
      ltac:(split; [eexists; split; [reflexivity | lia]|];
            each_element
              ltac:(eexists; split; [reflexivity|];
                    split; [discriminate|];
                    split; vm_compute; intuition discriminate)).
Defined.
